(** * Bounded Bravais lattices (bloqade.ir.location.bravais)

    A shallow embedding of [src/bloqade/ir/location/bravais.py]: the
    [BoundedBravais] base class, its seven lattice families, the lazily
    cached properties [n_atoms] and [n_dims], the coordinate enumeration
    and the [scale] transform.

    Python objects are modelled as a class tag together with an attribute
    dictionary, and live in a heap indexed by locations, so that missing
    attributes, shared references and the allocation done by [scale] are
    all visible.  The scalar algebra ([bloqade.ir.Scalar], [cast]) is not
    part of this module: it is taken as an interface, [ScalarOps].
    [enumerate] runs [itertools.product], which copies the ranges of the
    shape into memory before the first element is yielded: the memory
    the machine can provide is a parameter, and a shape that does not fit
    raises. *)

From Stdlib Require Import ZArith QArith Qcanon Lia PrimFloat.
From stdpp Require Import base option list gmap strings.

Close Scope Q_scope.
Close Scope Qc_scope.
Open Scope Z_scope.

(** ** The scalar interface

    Coordinates are Python floats, numpy floats or [Scalar] expressions;
    [cast] turns the first two into the third.  One carrier [K] stands for
    all of them.  [kofZ n] is the number [n] (the literals [0], [1], [1.0],
    [2], ...), [ksqrt3] is [np.sqrt(3)].  The operations are total: what
    the scalar library raises on its own (a zero literal as divisor, an
    operand it cannot convert) is not part of this module. *)

Class ScalarOps (K : Type) := {
  kofZ : Z → K;
  kadd : K → K → K;
  kmul : K → K → K;
  kdiv : K → K → K;
  ksqrt3 : K;
}.

(** ** Exceptions and the error monad *)

Inductive exn :=
  | AttributeError (name : string)
  | TypeError
  | ValueError
  | OverflowError
  | MemoryError.

Inductive result (A : Type) : Type :=
  | Ok (a : A)
  | Raise (e : exn).
Arguments Ok {A} a.
Arguments Raise {A} e.

#[global] Instance result_ret : MRet result := fun A a => Ok a.
#[global] Instance result_bind : MBind result := fun A B f m =>
  match m with
  | Ok a => f a
  | Raise e => Raise e
  end.

(** [mapM f xs]: run [f] on the elements from left to right, stopping at
    the first exception. *)
Fixpoint mapM {A B} (f : A → result B) (xs : list A) : result (list B) :=
  match xs with
  | [] => Ok []
  | x :: xs' => y ← f x; ys ← mapM f xs'; Ok (y :: ys)
  end.

(** [foldM f xs a]: the loop [for x in xs: a = f(a, x)]. *)
Fixpoint foldM {A B} (f : B → A → result B) (xs : list A) (b : B) : result B :=
  match xs with
  | [] => Ok b
  | x :: xs' => b' ← f b x; foldM f xs' b'
  end.

(** ** numpy and itertools *)

(** numpy turns a tuple of Python ints that all fit 64 signed bits into
    an [int64] array ([int64] is its default integer on 64-bit Linux and
    macOS, and everywhere from numpy 2): [np.prod] multiplies modulo
    [2^64] and returns a signed 64-bit value, and so does the product of
    a Python int with that value.  A tuple with an entry outside the
    [int64] range gets another dtype ([uint64], [float64] or [object])
    and is not described by [np_prod], except that a product with a zero
    entry has the value 0 in every one of them. *)
Definition wrap_int64 (z : Z) : Z := (z + 2^63) mod 2^64 - 2^63.

Definition np_prod (xs : list Z) : Z := wrap_int64 (fold_right Z.mul 1 xs).

(** [range(n)] is a lazy sequence, held by its bound: it has
    [max(0, n)] items, [0, 1, ..., n - 1], none of which is stored before
    it is asked for. *)
Inductive lazy_range := LazyRange (stop : Z).

Definition range (n : Z) : lazy_range := LazyRange n.

Definition range_len (r : lazy_range) : Z :=
  match r with LazyRange n => Z.max 0 n end.

Definition range_items (r : lazy_range) : list Z :=
  match r with LazyRange n => Z.of_nat <$> seq 0 (Z.to_nat n) end.

(** [tuple(r)] copies the range into memory (64-bit CPython).  A length
    of [2^63] or more does not fit the signed size of a sequence:
    [OverflowError].  The copy takes one slot of 8 bytes per item; an
    object of [2^63] bytes or more is refused on every machine, and so is
    one that needs more than the [mem] slots the machine at hand can
    still provide: [MemoryError]. *)
Definition tuple (mem : Z) (r : lazy_range) : result (list Z) :=
  if decide (2^63 ≤ range_len r) then Raise OverflowError
  else if decide (2^60 ≤ range_len r) then Raise MemoryError
  else if decide (mem < range_len r) then Raise MemoryError
  else Ok (range_items r).

(** [pools = [tuple(pool) for pool in iterables]], from left to right;
    every copy stays allocated. *)
Fixpoint tuples (mem : Z) (iterables : list lazy_range) : result (list (list Z)) :=
  match iterables with
  | [] => Ok []
  | r :: rest =>
      pool ← tuple mem r;
      pools ← tuples (mem - range_len r) rest;
      Ok (pool :: pools)
  end.

(** [itertools.product] over the iterables, as in the Python
    documentation: the pools are copied first, then [result = [[]]] and,
    for each pool, [result = [x+[y] for x in result for y in pool]]. *)
Definition product_step {A} (acc : list (list A)) (pool : list A) : list (list A) :=
  flat_map (fun x => map (fun y => x ++ [y]) pool) acc.

Definition product_of_pools {A} (pools : list (list A)) : list (list A) :=
  fold_left product_step pools [[]].

Definition itertools_product (mem : Z) (iterables : list lazy_range)
  : result (list (list Z)) :=
  pools ← tuples mem iterables;
  Ok (product_of_pools pools).

(** The same product by recursion on the list of pools, the first pool
    varying slowest; [product_of_pools_cartesian] relates the two. *)
Fixpoint cartesian {A} (pools : list (list A)) : list (list A) :=
  match pools with
  | [] => [[]]
  | p :: ps => flat_map (fun x => map (cons x) (cartesian ps)) p
  end.

Section Model.
Context {K : Type} `{ScalarOps K}.

(** [cast] (of the scalar library) turns a number into a scalar.  The
    carrier [K] holds the scalars, the numbers among them as the values
    they have after the conversion, so that on [K] the conversion does
    nothing.  How the library reads a float (through its decimal
    notation) and how it rounds a product belong to the instance of
    [ScalarOps]. *)
Definition cast (x : K) : K := x.

(** [np.sum] along an axis: the first entry seeds the reduction, an
    empty axis gives the additive identity. *)
Definition np_sum (row : list K) : K :=
  match row with
  | [] => kofZ 0
  | x :: xs => fold_left kadd xs x
  end.

(** [np.array(vs).T] for a list [vs] of vectors of equal length. *)
Definition n_cols (vs : list (list K)) : nat :=
  match vs with
  | [] => O
  | v :: _ => length v
  end.

Definition column (c : nat) (vs : list (list K)) : list K :=
  map (fun v => nth c v (kofZ 0)) vs.

Definition transpose (vs : list (list K)) : list (list K) :=
  map (fun c => column c vs) (seq 0 (n_cols vs)).

(** [rows * index] where every row has [d] entries: numpy broadcasts the
    index along the last axis, which needs equal lengths or one of
    them to be 1. *)
Definition broadcast_mul (d : nat) (rows : list (list K)) (index : list Z)
  : result (list (list K)) :=
  if decide (d = length index) then
    Ok (map (fun row => zip_with (fun v i => kmul v (kofZ i)) row index) rows)
  else if decide (d = 1%nat) then
    Ok (map (fun row => map (fun i => kmul (hd (kofZ 0) row) (kofZ i)) index) rows)
  else match index with
       | [i] => Ok (map (fun row => map (fun v => kmul v (kofZ i)) row) rows)
       | _ => Raise ValueError
       end.

(** ** Values, objects *)

Inductive value :=
  | VNone
  | VInt (n : Z)
  | VTuple (t : list Z)
  | VScalar (x : K).

(** Python truthiness, as tested by [if not v]. *)
Definition truthy (v : value) : bool :=
  match v with
  | VNone => false
  | VInt n => negb (n =? 0)
  | VTuple t => negb (Nat.eqb (length t) 0)
  | VScalar _ => true
  end.

Inductive Family :=
  | Chain | Square | Rectangular | Honeycomb | Triangular | Lieb | Kagome.

(** An instance: its class and its [__dict__]. *)
Record object := Object {
  cls : Family;
  attrs : gmap string value;
}.

(** Attributes found on the class itself: [Rectangular] declares
    [ratio: Scalar = 1.0]. *)
Definition class_attr (c : Family) (name : string) : option value :=
  match c with
  | Rectangular =>
      if decide (name = "ratio") then Some (VScalar (kofZ 1)) else None
  | _ => None
  end.

Definition getattr (o : object) (name : string) : result value :=
  match attrs o !! name with
  | Some v => Ok v
  | None =>
      match class_attr (cls o) name with
      | Some v => Ok v
      | None => Raise (AttributeError name)
      end
  end.

Definition setattr (o : object) (name : string) (v : value) : object :=
  {| cls := cls o; attrs := <[name := v]> (attrs o) |}.

(** [type(self).__new__]: no attribute is set. *)
Definition new (c : Family) : object := {| cls := c; attrs := ∅ |}.

Definition as_tuple (v : value) : result (list Z) :=
  match v with
  | VTuple t => Ok t
  | _ => Raise TypeError
  end.

Definition as_scalar (v : value) : result K :=
  match v with
  | VScalar x => Ok x
  | VInt n => Ok (kofZ n)
  | _ => Raise TypeError
  end.

(** ** The lattice families *)

Definition half : K := kdiv (kofZ 1) (kofZ 2).

(** [cell_vectors]: only [Rectangular] reads the instance. *)
Definition cell_vectors (o : object) : result (list (list K)) :=
  match cls o with
  | Chain => Ok [[kofZ 1; kofZ 0]]
  | Square => Ok [[kofZ 1; kofZ 0]; [kofZ 0; kofZ 1]]
  | Rectangular =>
      ratio ← getattr o "ratio" ≫= as_scalar;
      Ok [[kofZ 1; kofZ 0]; [kofZ 0; ratio]]
  | Honeycomb | Triangular | Kagome =>
      Ok [[kofZ 1; kofZ 0]; [half; kdiv ksqrt3 (kofZ 2)]]
  | Lieb => Ok [[kofZ 1; kofZ 0]; [kofZ 0; kofZ 1]]
  end.

Definition cell_atoms (c : Family) : list (list K) :=
  match c with
  | Chain | Square | Rectangular | Triangular => [[kofZ 0; kofZ 0]]
  | Honeycomb =>
      [[kofZ 0; kofZ 0]; [half; kdiv (kofZ 1) (kmul (kofZ 2) ksqrt3)]]
  | Lieb => [[kofZ 0; kofZ 0]; [half; kofZ 0]; [kofZ 0; half]]
  | Kagome =>
      [[kofZ 0; kofZ 0]; [half; kofZ 0];
       [kdiv (kofZ 1) (kofZ 4); kdiv ksqrt3 (kofZ 4)]]
  end.

(** ** BoundedBravais *)

Definition BoundedBravais_init (self : object) (shape : list Z)
    (lattice_spacing : K) : object :=
  let self := setattr self "shape" (VTuple shape) in
  let self := setattr self "lattice_spacing" (VScalar (cast lattice_spacing)) in
  let self := setattr self "_BoundedBravais__n_atoms" VNone in
  setattr self "_BoundedBravais__n_dims" VNone.

(** The property [n_atoms].  The result carries the value returned, the
    instance after the access and whether the assignment of line 52
    (the computation) was executed. *)
Definition n_atoms (o : object) : result (value * object * bool) :=
  cached ← getattr o "_BoundedBravais__n_atoms";
  if negb (truthy cached) then
    shape ← getattr o "shape" ≫= as_tuple;
    let n := wrap_int64 (Z.of_nat (length (cell_atoms (cls o))) * np_prod shape) in
    let o' := setattr o "_BoundedBravais__n_atoms" (VInt n) in
    v ← getattr o' "_BoundedBravais__n_atoms";
    Ok (v, o', true)
  else Ok (cached, o, false).

(** The property [n_dims], same shape. *)
Definition n_dims (o : object) : result (value * object * bool) :=
  cached ← getattr o "_BoundedBravais__n_dims";
  if negb (truthy cached) then
    vectors ← cell_vectors o;
    let o' := setattr o "_BoundedBravais__n_dims" (VInt (Z.of_nat (length vectors))) in
    v ← getattr o' "_BoundedBravais__n_dims";
    Ok (v, o', true)
  else Ok (cached, o, false).

(** [coordinates]: one row per cell atom. *)
Definition coordinates (o : object) (index : list Z) : result (list (list K)) :=
  vectors ← cell_vectors o;
  prods ← broadcast_mul (length vectors) (transpose vectors) index;
  let pos := map np_sum prods in
  Ok (map (fun atom => zip_with kadd pos atom) (cell_atoms (cls o))).

Record LocationInfo := mkLocationInfo {
  position : list K;
  filled : bool;
}.

(** [enumerate]: the sequence of values the generator yields when it is
    run to its end, or the exception that stops it; [mem] is the memory
    left for the pools of [itertools.product]. *)
Definition enumerate (mem : Z) (o : object) : result (list LocationInfo) :=
  shape ← getattr o "shape" ≫= as_tuple;
  indices ← itertools_product mem (map range shape);
  chunks ← mapM (fun index =>
    rows ← coordinates o index;
    mapM (fun pos =>
      spacing ← getattr o "lattice_spacing" ≫= as_scalar;
      Ok (mkLocationInfo (map (kmul spacing) pos) true)) rows)
    indices;
  Ok (concat chunks).

(** [dataclasses.fields]: the annotated fields, without the [InitVar]s. *)
Definition fields (c : Family) : list string :=
  match c with
  | Rectangular => ["shape"; "lattice_spacing"; "ratio"]
  | _ => ["shape"; "lattice_spacing"]
  end.

Definition scale (self : object) (factor : K) : result object :=
  let factor := cast factor in
  let obj := new (cls self) in
  foldM (fun obj f =>
    if decide (f = "lattice_spacing") then
      spacing ← getattr self "lattice_spacing" ≫= as_scalar;
      Ok (setattr obj "lattice_spacing" (VScalar (kmul factor spacing)))
    else
      v ← getattr self f;
      Ok (setattr obj f v)) (fields (cls self)) obj.

(** ** Constructors of the families

    The spacing is passed explicitly; the default [lattice_spacing=1.0] of
    the Python signatures is [kofZ 1]. *)

Definition Chain_init (L : Z) (lattice_spacing : K) : object :=
  BoundedBravais_init (new Chain) [L] lattice_spacing.

Definition Square_init (L : Z) (lattice_spacing : K) : object :=
  BoundedBravais_init (new Square) [L; L] lattice_spacing.

Definition Rectangular_init (width height : Z) (lattice_spacing_x : K)
    (lattice_spacing_y : option K) : object :=
  let self := new Rectangular in
  let self :=
    match lattice_spacing_y with
    | None =>
        setattr self "ratio" (VScalar (kdiv (cast (kofZ 1)) (cast lattice_spacing_x)))
    | Some y =>
        setattr self "ratio" (VScalar (kdiv (cast y) (cast lattice_spacing_x)))
    end in
  BoundedBravais_init self [width; height] lattice_spacing_x.

Definition Honeycomb_init (L : Z) (lattice_spacing : K) : object :=
  BoundedBravais_init (new Honeycomb) [L; L] lattice_spacing.

Definition Triangular_init (L : Z) (lattice_spacing : K) : object :=
  BoundedBravais_init (new Triangular) [L; L] lattice_spacing.

Definition Lieb_init (L : Z) (lattice_spacing : K) : object :=
  BoundedBravais_init (new Lieb) [L; L] lattice_spacing.

Definition Kagome_init (L : Z) (lattice_spacing : K) : object :=
  BoundedBravais_init (new Kagome) [L; L] lattice_spacing.

(** A call of a user-facing constructor with its arguments. *)
Inductive ctor_call :=
  | CallChain (L : Z) (lattice_spacing : K)
  | CallSquare (L : Z) (lattice_spacing : K)
  | CallRectangular (width height : Z) (lattice_spacing_x : K)
      (lattice_spacing_y : option K)
  | CallHoneycomb (L : Z) (lattice_spacing : K)
  | CallTriangular (L : Z) (lattice_spacing : K)
  | CallLieb (L : Z) (lattice_spacing : K)
  | CallKagome (L : Z) (lattice_spacing : K).

Definition construct (c : ctor_call) : object :=
  match c with
  | CallChain L s => Chain_init L s
  | CallSquare L s => Square_init L s
  | CallRectangular w h sx sy => Rectangular_init w h sx sy
  | CallHoneycomb L s => Honeycomb_init L s
  | CallTriangular L s => Triangular_init L s
  | CallLieb L s => Lieb_init L s
  | CallKagome L s => Kagome_init L s
  end.

(** ** The heap *)

Definition loc := positive.

Definition alloc (h : gmap loc object) (o : object) : loc * gmap loc object :=
  let l := fresh (dom h) in (l, <[l := o]> h).

Definition deref (h : gmap loc object) (l : loc) : result object :=
  match h !! l with
  | Some o => Ok o
  | None => Raise TypeError
  end.

(** [x.scale(factor)] with [x] stored at [l]: the copy is a new object. *)
Definition heap_scale (h : gmap loc object) (l : loc) (factor : K)
  : result (loc * gmap loc object) :=
  self ← deref h l;
  obj ← scale self factor;
  Ok (alloc h obj).

(** [x.n_atoms] with [x] stored at [l]: the cache is written in place. *)
Definition heap_n_atoms (h : gmap loc object) (l : loc)
  : result (value * gmap loc object * bool) :=
  self ← deref h l;
  '(v, self', computed) ← n_atoms self;
  Ok (v, <[l := self']> h, computed).

Definition heap_n_dims (h : gmap loc object) (l : loc)
  : result (value * gmap loc object * bool) :=
  self ← deref h l;
  '(v, self', computed) ← n_dims self;
  Ok (v, <[l := self']> h, computed).

End Model.

Arguments value K : clear implicits.
Arguments object K : clear implicits.
Arguments LocationInfo K : clear implicits.
Arguments ctor_call K : clear implicits.

(** ** An exact scalar algebra: the numbers [a + b * sqrt 3], [a], [b]
    rational

    Every coordinate the seven families produce from rational spacings
    lies in this field, so the model can be run without rounding. *)

Record Qsqrt3 := mkQsqrt3 {
  rat : Qc;
  irr : Qc;
}.

Definition Qs_ofZ (n : Z) : Qsqrt3 := mkQsqrt3 (Q2Qc (inject_Z n)) (Q2Qc 0).

Definition Qs_add (x y : Qsqrt3) : Qsqrt3 :=
  mkQsqrt3 (rat x + rat y)%Qc (irr x + irr y)%Qc.

Definition Qs_mul (x y : Qsqrt3) : Qsqrt3 :=
  mkQsqrt3 (rat x * rat y + Q2Qc 3 * (irr x * irr y))%Qc
           (rat x * irr y + irr x * rat y)%Qc.

Definition Qs_inv (x : Qsqrt3) : Qsqrt3 :=
  let n := (rat x * rat x - Q2Qc 3 * (irr x * irr x))%Qc in
  mkQsqrt3 (rat x / n)%Qc (- irr x / n)%Qc.

Definition Qs_div (x y : Qsqrt3) : Qsqrt3 := Qs_mul x (Qs_inv y).

#[global] Instance Qsqrt3_ops : ScalarOps Qsqrt3 := {|
  kofZ := Qs_ofZ;
  kadd := Qs_add;
  kmul := Qs_mul;
  kdiv := Qs_div;
  ksqrt3 := mkQsqrt3 (Q2Qc 0) (Q2Qc 1);
|}.

(** Printing: the two rational components in lowest terms. *)
Definition Qs_show (x : Qsqrt3) : Q * Q := (this (rat x), this (irr x)).

Definition show_positions (r : result (list (LocationInfo Qsqrt3)))
  : result (list (list (Q * Q) * bool)) :=
  l ← r; Ok (map (fun p => (map Qs_show (position p), filled p)) l).

(** ** Binary64 numbers

    The values of Python floats.  The scalar library does not compute on
    them but on decimal numbers, and the two arithmetics round apart
    (on [0.1], say).  This instance serves one example of the
    specification, [Rectangular(2, 3, lattice_spacing_x=2.0)], whose
    quotient [1 / 2.0] is exact in both. *)

(** An integer as a float; exact up to [2^53]. *)
Fixpoint float_of_pos (p : positive) : float :=
  match p with
  | xH => 1%float
  | xO q => PrimFloat.mul 2%float (float_of_pos q)
  | xI q => PrimFloat.add (PrimFloat.mul 2%float (float_of_pos q)) 1%float
  end.

Definition float_ofZ (n : Z) : float :=
  match n with
  | Z0 => 0%float
  | Zpos p => float_of_pos p
  | Zneg p => PrimFloat.opp (float_of_pos p)
  end.

#[global] Instance float_ops : ScalarOps float := {|
  kofZ := float_ofZ;
  kadd := PrimFloat.add;
  kmul := PrimFloat.mul;
  kdiv := PrimFloat.div;
  ksqrt3 := PrimFloat.sqrt 3%float;
|}.

(** ** The specification of the enumeration, in its own words *)

Section Specification.
Context {K : Type} `{ScalarOps K}.

(** The multi-indices [i] with [0 <= i_k < shape[k]] in row-major
    order: the first index varies slowest, the last one fastest. *)
Fixpoint spec_multi_indices (shape : list Z) : list (list Z) :=
  match shape with
  | [] => [[]]
  | n :: rest =>
      flat_map (fun i => map (cons i) (spec_multi_indices rest)) (seqZ 0 n)
  end.

(** The rank of a multi-index in that order (mixed radix, the last
    index is the least significant digit). *)
Fixpoint row_major_rank (shape index : list Z) : Z :=
  match shape, index with
  | n :: rest, i :: index' =>
      i * fold_right Z.mul 1 rest + row_major_rank rest index'
  | _, _ => 0
  end.

(** Vectors: the sum of two vectors, the vector [v] taken [i] times, the
    zero vector, and the sum of a list of vectors (the zero vector when
    there is none). *)
Definition vadd (u v : list K) : list K := zip_with kadd u v.
Definition vscale (i : Z) (v : list K) : list K :=
  map (fun x => kmul x (kofZ i)) v.
Definition vzero (d : nat) : list K := replicate d (kofZ 0).
Definition vsum (d : nat) (terms : list (list K)) : list K :=
  match terms with
  | [] => vzero d
  | t :: ts => fold_left vadd ts t
  end.

(** [origin(i) = sum_k i_k * cellVector_k]. *)
Definition spec_origin (vectors : list (list K)) (i : list Z) : list K :=
  vsum (n_cols vectors) (zip_with vscale i vectors).

(** [lattice_spacing * (origin(i) + a)]. *)
Definition spec_position (spacing : K) (vectors : list (list K))
    (i : list Z) (a : list K) : list K :=
  map (kmul spacing) (vadd (spec_origin vectors i) a).

Definition spec_enumerate (spacing : K) (vectors atoms : list (list K))
    (shape : list Z) : list (LocationInfo K) :=
  flat_map (fun i =>
    map (fun a => mkLocationInfo (spec_position spacing vectors i a) true) atoms)
    (spec_multi_indices shape).

(** What [coordinates] computes for [pos] when the index has one entry
    per cell vector. *)
Definition cell_origin (vectors : list (list K)) (index : list Z) : list K :=
  map np_sum
    (map (fun row => zip_with (fun v i => kmul v (kofZ i)) row index)
       (transpose vectors)).

(** The list [enumerate] yields on a well-formed instance, written with
    the operations of the code. *)
Definition enumerated (s : K) (vs atoms : list (list K)) (shape : list Z)
  : list (LocationInfo K) :=
  flat_map (fun index =>
    map (fun atom =>
      mkLocationInfo (map (kmul s) (zip_with kadd (cell_origin vs index) atom)) true)
      atoms)
    (spec_multi_indices shape).

(** The number of atoms as the specification computes it. *)
Definition spec_n_atoms (c : Family) (shape : list Z) : Z :=
  Z.of_nat (length (cell_atoms c)) * fold_right Z.mul 1 shape.

(** Instances reachable through the public interface: a constructor
    call followed by any number of [scale] calls. *)
Inductive valid : object K → Prop :=
  | valid_construct c : valid (construct c)
  | valid_scale o factor o' : valid o → scale o factor = Ok o' → valid o'.

(** The state an instance needs for enumeration: a shape tuple, a scalar
    spacing, readable cell vectors, one repeat count per cell vector. *)
Record well_formed (o : object K) (shape : list Z) (spacing : K)
    (vectors : list (list K)) : Prop := {
  wf_shape : attrs o !! "shape" = Some (VTuple shape);
  wf_spacing : attrs o !! "lattice_spacing" = Some (VScalar spacing);
  wf_vectors : cell_vectors o = Ok vectors;
  wf_dims : length shape = length vectors;
}.

(** The ranges of a shape can be copied into memory: every repeat count
    is below [2^60] and together they take at most [mem] slots. *)
Definition materialisable (mem : Z) (shape : list Z) : Prop :=
  Forall (fun n => n < 2^60) shape
  ∧ fold_right (fun n acc => Z.max 0 n + acc) 0 shape ≤ mem.

(** A multi-index within the bounds of a shape. *)
Definition index_in_shape (index shape : list Z) : Prop :=
  Forall2 (fun i n => 0 ≤ i < n) index shape.

(** The table of the families: what each constructor call is specified
    to produce. *)
Definition ctor_family (c : ctor_call K) : Family :=
  match c with
  | CallChain _ _ => Chain
  | CallSquare _ _ => Square
  | CallRectangular _ _ _ _ => Rectangular
  | CallHoneycomb _ _ => Honeycomb
  | CallTriangular _ _ => Triangular
  | CallLieb _ _ => Lieb
  | CallKagome _ _ => Kagome
  end.

Definition spec_shape (c : ctor_call K) : list Z :=
  match c with
  | CallChain L _ => [L]
  | CallRectangular w h _ _ => [w; h]
  | CallSquare L _ | CallHoneycomb L _ | CallTriangular L _
  | CallLieb L _ | CallKagome L _ => [L; L]
  end.

Definition spec_spacing (c : ctor_call K) : K :=
  match c with
  | CallRectangular _ _ sx _ => sx
  | CallChain _ s | CallSquare _ s | CallHoneycomb _ s | CallTriangular _ s
  | CallLieb _ s | CallKagome _ s => s
  end.

(** [lattice_spacing_y / lattice_spacing_x], or [1 / lattice_spacing_x]
    when no y spacing is given. *)
Definition spec_ratio (sx : K) (sy : option K) : K :=
  match sy with
  | Some y => kdiv y sx
  | None => kdiv (kofZ 1) sx
  end.

Definition spec_cell_vectors (c : ctor_call K) : list (list K) :=
  match c with
  | CallChain _ _ => [[kofZ 1; kofZ 0]]
  | CallSquare _ _ | CallLieb _ _ => [[kofZ 1; kofZ 0]; [kofZ 0; kofZ 1]]
  | CallRectangular _ _ sx sy => [[kofZ 1; kofZ 0]; [kofZ 0; spec_ratio sx sy]]
  | CallHoneycomb _ _ | CallTriangular _ _ | CallKagome _ _ =>
      [[kofZ 1; kofZ 0]; [kdiv (kofZ 1) (kofZ 2); kdiv ksqrt3 (kofZ 2)]]
  end.

(** The attributes [scale] sets on the copy, in closed form. *)
Definition ratio_of (o : object K) : value K :=
  match getattr o "ratio" with
  | Ok r => r
  | Raise _ => VNone
  end.

Definition copy_attrs (c : Family) (shape : value K) (spacing : K) (ratio : value K)
  : gmap string (value K) :=
  let base := <["lattice_spacing" := VScalar spacing]> (<["shape" := shape]> ∅) in
  match c with
  | Rectangular => <["ratio" := ratio]> base
  | _ => base
  end.

End Specification.

(** * Properties *)

(** ** Lists, products and the error monad *)

Lemma mapM_total {A B} (g : A → B) (xs : list A) :
  mapM (fun x => Ok (g x)) xs = Ok (map g xs).
Proof.
  induction xs as [|x xs IH]; simpl; [done|].
  by rewrite IH.
Qed.

Lemma mapM_ext_in {A B} (f g : A → result B) (xs : list A) :
  (∀ x, In x xs → f x = g x) → mapM f xs = mapM g xs.
Proof.
  induction xs as [|x xs IH]; intros Hfg; simpl; [done|].
  rewrite Hfg by (left; done).
  rewrite IH; [done|]. intros y Hy. apply Hfg. by right.
Qed.

Lemma range_seqZ n : range_items (range n) = seqZ 0 n.
Proof.
  unfold range, range_items, seqZ. apply map_ext. intros i. lia.
Qed.

Lemma slots_nonneg (shape : list Z) :
  0 ≤ fold_right (fun n acc => Z.max 0 n + acc) 0 shape.
Proof. induction shape as [|n rest IH]; simpl; lia. Qed.

(** Within the memory at hand every range is copied in full. *)
Lemma tuples_materialisable mem shape :
  materialisable mem shape →
  tuples mem (map range shape) = Ok (map (seqZ 0) shape).
Proof.
  revert mem. induction shape as [|n rest IH]; intros mem [Hall Hmem]; [done|].
  apply Forall_cons in Hall as [Hn Hrest]. simpl in Hmem.
  pose proof (slots_nonneg rest) as Hslots.
  simpl. unfold tuple. simpl range_len.
  rewrite (decide_False (P := 2^63 ≤ Z.max 0 n)) by lia.
  rewrite (decide_False (P := 2^60 ≤ Z.max 0 n)) by lia.
  rewrite (decide_False (P := mem < Z.max 0 n)) by lia. simpl.
  rewrite IH by (split; [done|lia]). simpl.
  do 2 f_equal. apply (range_seqZ n).
Qed.

(** Otherwise the copy stops with one of the two exceptions. *)
Lemma tuples_not_materialisable mem shape :
  0 ≤ mem →
  ¬ materialisable mem shape →
  tuples mem (map range shape) = Raise OverflowError
  ∨ tuples mem (map range shape) = Raise MemoryError.
Proof.
  revert mem. induction shape as [|n rest IH]; intros mem Hmem Hnot.
  - exfalso. apply Hnot. split; [constructor|simpl; lia].
  - simpl. unfold tuple. simpl range_len.
    destruct (decide (2^63 ≤ Z.max 0 n)) as [Hn|Hn]; [by left|].
    destruct (decide (2^60 ≤ Z.max 0 n)) as [Hc|Hc]; [by right|].
    destruct (decide (mem < Z.max 0 n)) as [Hm|Hm]; [by right|]. simpl.
    destruct (IH (mem - Z.max 0 n)) as [->| ->]; auto; [lia|].
    intros [Hall Hsum]. apply Hnot. split.
    + constructor; [lia|done].
    + simpl. lia.
Qed.

Lemma flat_map_singleton {A} (xs : list A) :
  flat_map (fun x => [x]) xs = xs.
Proof. induction xs as [|x xs IH]; simpl; congruence. Qed.

Lemma flat_map_flat_map {A B C} (f : A → list B) (g : B → list C) xs :
  flat_map g (flat_map f xs) = flat_map (fun x => flat_map g (f x)) xs.
Proof.
  induction xs as [|x xs IH]; simpl; [done|].
  by rewrite flat_map_app, IH.
Qed.

Lemma flat_map_map {A B C} (f : A → B) (g : B → list C) xs :
  flat_map g (map f xs) = flat_map (fun x => g (f x)) xs.
Proof. induction xs as [|x xs IH]; simpl; congruence. Qed.

Lemma map_flat_map {A B C} (f : A → list B) (g : B → C) xs :
  map g (flat_map f xs) = flat_map (fun x => map g (f x)) xs.
Proof.
  induction xs as [|x xs IH]; simpl; [done|].
  by rewrite map_app, IH.
Qed.

Lemma product_fold {A} (pools : list (list A)) acc :
  fold_left product_step pools acc
  = flat_map (fun x => map (app x) (cartesian pools)) acc.
Proof.
  revert acc. induction pools as [|p ps IH]; intros acc; simpl.
  - rewrite <- (flat_map_singleton acc) at 1.
    apply flat_map_ext. intros x. by rewrite app_nil_r.
  - rewrite IH. unfold product_step. rewrite flat_map_flat_map.
    apply flat_map_ext. intros x.
    rewrite flat_map_map, map_flat_map.
    apply flat_map_ext. intros y.
    rewrite map_map. apply map_ext. intros z.
    by rewrite <- app_assoc.
Qed.

Lemma product_of_pools_cartesian {A} (pools : list (list A)) :
  product_of_pools pools = cartesian pools.
Proof.
  unfold product_of_pools. rewrite product_fold. simpl.
  rewrite app_nil_r. rewrite map_id. done.
Qed.

Lemma product_range_row_major mem shape :
  materialisable mem shape →
  itertools_product mem (map range shape) = Ok (spec_multi_indices shape).
Proof.
  intros Hfit. unfold itertools_product.
  rewrite (tuples_materialisable mem shape Hfit). simpl.
  rewrite product_of_pools_cartesian. f_equal.
  clear. induction shape as [|n rest IH]; simpl; [done|].
  by rewrite IH.
Qed.

Lemma product_range_not_materialisable mem shape :
  0 ≤ mem →
  ¬ materialisable mem shape →
  itertools_product mem (map range shape) = Raise OverflowError
  ∨ itertools_product mem (map range shape) = Raise MemoryError.
Proof.
  intros Hmem Hex. unfold itertools_product.
  destruct (tuples_not_materialisable mem shape Hmem Hex) as [->| ->]; auto.
Qed.

Lemma spec_multi_indices_length shape index :
  In index (spec_multi_indices shape) → length index = length shape.
Proof.
  revert index. induction shape as [|n rest IH]; intros index; simpl.
  - intros [<-|[]]. done.
  - rewrite in_flat_map. intros (i & _ & Hin).
    apply in_map_iff in Hin as (tl & <- & Htl). simpl.
    by rewrite (IH tl Htl).
Qed.

Lemma spec_multi_indices_count shape :
  Z.of_nat (length (spec_multi_indices shape))
  = fold_right Z.mul 1 (map (Z.max 0) shape).
Proof.
  induction shape as [|n rest IH]; simpl fold_right; [done|].
  rewrite <- IH. simpl spec_multi_indices.
  generalize (spec_multi_indices rest) as l. intros l.
  unfold seqZ. rewrite flat_map_map.
  assert (Hlen : ∀ (xs : list nat),
    length (flat_map (fun x => map (cons (Z.of_nat x + 0)) l) xs)
    = (length xs * length l)%nat).
  { induction xs as [|x xs IHx]; simpl; [done|].
    rewrite length_app, length_map, IHx. done. }
  rewrite Hlen, length_seq. lia.
Qed.

(** ** Running the model on well-formed instances *)

Section Running.
Context {K : Type} `{ScalarOps K}.

Lemma cell_vectors_planar (o : object K) vs :
  cell_vectors o = Ok vs →
  Forall (fun v => length v = 2%nat) vs ∧
  length vs = (match cls o with Chain => 1 | _ => 2 end)%nat.
Proof.
  unfold cell_vectors. destruct (cls o); simpl.
  all: try (intros [= <-]; split; [repeat constructor | done]).
  destruct (getattr o "ratio") as [v|e]; simpl; [|done].
  destruct (as_scalar v) as [r|e]; simpl; [|done].
  intros [= <-]. split; [repeat constructor | done].
Qed.

Lemma cell_atoms_planar (c : Family) :
  Forall (fun a => length a = 2%nat) (cell_atoms c).
Proof. destruct c; repeat constructor. Qed.

Lemma coordinates_wf o shape s vs index :
  well_formed o shape s vs →
  length index = length shape →
  coordinates o index
  = Ok (map (fun atom => zip_with kadd (cell_origin vs index) atom)
          (cell_atoms (cls o))).
Proof.
  intros [_ _ Hvs Hd] Hlen. unfold coordinates. rewrite Hvs. simpl.
  unfold broadcast_mul. rewrite decide_True by congruence. done.
Qed.

Lemma enumerate_wf mem o shape s vs :
  well_formed o shape s vs →
  materialisable mem shape →
  enumerate mem o = Ok (enumerated s vs (cell_atoms (cls o)) shape).
Proof.
  intros Hwf Hfit. pose proof Hwf as [Hsh Hsp _ _].
  unfold enumerate, getattr. rewrite Hsh. simpl.
  rewrite (product_range_row_major mem shape Hfit). simpl.
  erewrite mapM_ext_in.
  2:{ intros index Hin.
      rewrite (coordinates_wf _ _ _ _ _ Hwf (spec_multi_indices_length _ _ Hin)).
      simpl. rewrite Hsp. simpl.
      rewrite (mapM_total (fun pos => mkLocationInfo (map (kmul s) pos) true)).
      rewrite map_map. reflexivity. }
  rewrite mapM_total. simpl.
  unfold enumerated. by rewrite flat_map_concat_map.
Qed.

Lemma enumerated_count s vs atoms shape :
  Z.of_nat (length (enumerated s vs atoms shape))
  = Z.of_nat (length atoms) * fold_right Z.mul 1 (map (Z.max 0) shape).
Proof.
  rewrite <- spec_multi_indices_count. unfold enumerated.
  generalize (spec_multi_indices shape) as l.
  induction l as [|i l IH]; simpl; [lia|].
  rewrite length_app, length_map. lia.
Qed.

End Running.

(** ** The origin of a cell: numpy's broadcast against the vector sum *)

Section Origin.
Context {K : Type} `{ScalarOps K}.

Lemma nth_seq_eq (d : nat) (v : list K) :
  length v = d → v = map (fun c => nth c v (kofZ 0)) (seq 0 d).
Proof.
  intros <-. apply nth_ext with (d := kofZ 0) (d' := kofZ 0).
  - by rewrite length_map, length_seq.
  - intros n Hn.
    rewrite (nth_indep (map _ _) (kofZ 0) (nth 0 v (kofZ 0)))
      by (by rewrite length_map, length_seq).
    rewrite (map_nth (fun c => nth c v (kofZ 0)) (seq 0 (length v)) 0%nat n).
    by rewrite seq_nth.
Qed.

Lemma nth_vadd (u v : list K) c :
  (c < length u)%nat → (c < length v)%nat →
  nth c (vadd u v) (kofZ 0) = kadd (nth c u (kofZ 0)) (nth c v (kofZ 0)).
Proof.
  revert v c. induction u as [|x u IH]; intros [|y v] [|c]; simpl; try lia; [done|].
  intros Hu Hv. apply IH; lia.
Qed.

Lemma length_vadd (u v : list K) d :
  length u = d → length v = d → length (vadd u v) = d.
Proof. intros Hu Hv. unfold vadd. rewrite length_zip_with. lia. Qed.

(** A sum of vectors, read one component at a time. *)
Lemma fold_vadd_components (d : nat) (terms : list (list K)) (acc : list K) :
  length acc = d →
  Forall (fun t => length t = d) terms →
  fold_left vadd terms acc
  = map (fun c =>
      fold_left kadd (map (fun t => nth c t (kofZ 0)) terms) (nth c acc (kofZ 0)))
      (seq 0 d).
Proof.
  intros Hacc Hterms. revert acc Hacc.
  induction Hterms as [|t terms Ht _ IH]; intros acc Hacc; simpl.
  - by apply nth_seq_eq.
  - rewrite IH by (by apply length_vadd).
    apply map_ext_in. intros c Hc. apply in_seq in Hc.
    rewrite nth_vadd by lia. done.
Qed.

Lemma vsum_components (d : nat) (terms : list (list K)) :
  Forall (fun t => length t = d) terms →
  vsum d terms
  = map (fun c => np_sum (map (fun t => nth c t (kofZ 0)) terms)) (seq 0 d).
Proof.
  intros Hterms. destruct Hterms as [|t terms Ht Hterms]; simpl.
  - unfold vzero. induction d as [|d IH]; simpl; [done|].
    rewrite <- seq_shift, map_map. by rewrite <- IH.
  - by apply fold_vadd_components.
Qed.

Lemma column_scaled c (vs : list (list K)) (index : list Z) :
  Forall (fun v => c < length v)%nat vs →
  zip_with (fun v i => kmul v (kofZ i)) (column c vs) index
  = map (fun t => nth c t (kofZ 0)) (zip_with vscale index vs).
Proof.
  intros Hvs. revert index.
  induction Hvs as [|v vs Hv _ IH]; intros [|i index]; simpl; try done.
  rewrite IH. f_equal. unfold vscale.
  rewrite (nth_indep (map _ v) (kofZ 0) (kmul (kofZ 0) (kofZ i)))
    by (by rewrite length_map).
  by rewrite (map_nth (fun x => kmul x (kofZ i))).
Qed.

(** [np.sum(vectors.T * index, axis=1)] is [sum_k i_k * cellVector_k]. *)
Lemma cell_origin_spec (vs : list (list K)) (index : list Z) :
  Forall (fun v => length v = n_cols vs) vs →
  cell_origin vs index = spec_origin vs index.
Proof.
  intros Hvs. unfold cell_origin, spec_origin, transpose.
  rewrite (vsum_components (n_cols vs)).
  - rewrite !map_map. apply map_ext_in. intros c Hc. apply in_seq in Hc.
    rewrite column_scaled; [done|].
    eapply Forall_impl; [exact Hvs|]. simpl. intros v ->. lia.
  - clear -Hvs. revert index. set (d := n_cols vs) in *. clearbody d.
    induction Hvs as [|v vs' Hv _ IH]; intros [|i index]; simpl; constructor.
    + unfold vscale. by rewrite length_map.
    + apply IH.
Qed.

Lemma enumerated_spec s (vs atoms : list (list K)) shape :
  Forall (fun v => length v = n_cols vs) vs →
  enumerated s vs atoms shape = spec_enumerate s vs atoms shape.
Proof.
  intros Hvs. unfold enumerated, spec_enumerate, spec_position.
  apply flat_map_ext. intros index. apply map_ext. intros atom.
  by rewrite (cell_origin_spec _ _ Hvs).
Qed.

End Origin.

(** ** Positions in the row-major order *)

Lemma lookup_flat_map_uniform {A B} (f : A → list B) (p : nat) xs i r x :
  (∀ y, length (f y) = p) →
  xs !! i = Some x →
  (r < p)%nat →
  flat_map f xs !! (i * p + r)%nat = f x !! r.
Proof.
  intros Hlen. revert i. induction xs as [|y xs IH]; intros [|i]; simpl; try done.
  - intros [= ->] Hr. apply lookup_app_l. rewrite Hlen. done.
  - intros Hx Hr. rewrite lookup_app_r by (rewrite Hlen; lia).
    rewrite Hlen. replace (p + i * p + r - p)%nat with (i * p + r)%nat by lia.
    by apply IH.
Qed.

Lemma index_in_shape_positive index shape :
  index_in_shape index shape →
  map (Z.max 0) shape = shape ∧ 0 < fold_right Z.mul 1 shape.
Proof.
  induction 1 as [|i n index shape Hi _ [IH1 IH2]]; simpl; [done|].
  rewrite IH1. split; [f_equal; lia | nia].
Qed.

Lemma row_major_rank_bound index shape :
  index_in_shape index shape →
  0 ≤ row_major_rank shape index < fold_right Z.mul 1 shape.
Proof.
  induction 1 as [|i n index shape Hi Hrest IH]; simpl; [lia|].
  apply index_in_shape_positive in Hrest as [_ Hpos]. nia.
Qed.

Lemma spec_multi_indices_rank index shape :
  index_in_shape index shape →
  spec_multi_indices shape !! Z.to_nat (row_major_rank shape index) = Some index.
Proof.
  induction 1 as [|i n index shape Hi Hrest IH]; simpl; [done|].
  pose proof (row_major_rank_bound _ _ Hrest) as Hr.
  pose proof (index_in_shape_positive _ _ Hrest) as [Hmax Hpos].
  pose proof (spec_multi_indices_count shape) as Hcount.
  rewrite Hmax in Hcount.
  set (p := fold_right Z.mul 1 shape) in *.
  set (r := row_major_rank shape index) in *.
  replace (Z.to_nat (i * p + r))
    with (Z.to_nat i * length (spec_multi_indices shape) + Z.to_nat r)%nat by nia.
  rewrite (lookup_flat_map_uniform _ (length (spec_multi_indices shape)) _ _ _ i).
  - rewrite list_lookup_fmap, IH. done.
  - intros y. by rewrite length_map.
  - rewrite lookup_seqZ. split; [f_equal|]; lia.
  - lia.
Qed.

Lemma spec_enumerate_lookup {K} `{ScalarOps K} (s : K) vs atoms shape index k a :
  index_in_shape index shape →
  atoms !! k = Some a →
  spec_enumerate s vs atoms shape
    !! (Z.to_nat (row_major_rank shape index) * length atoms + k)%nat
  = Some (mkLocationInfo (spec_position s vs index a) true).
Proof.
  intros Hin Ha. unfold spec_enumerate.
  rewrite (lookup_flat_map_uniform _ (length atoms) _ _ _ index).
  - by rewrite list_lookup_fmap, Ha.
  - intros y. by rewrite length_map.
  - by apply spec_multi_indices_rank.
  - by apply lookup_lt_Some in Ha.
Qed.

(** ** The product of the exact scalars is associative *)

Lemma Qs_mul_assoc (x y z : Qsqrt3) : kmul x (kmul y z) = kmul (kmul x y) z.
Proof.
  destruct x as [a b], y as [c d], z as [e f]. simpl. unfold Qs_mul. simpl.
  f_equal; ring.
Qed.

(** ** Enumeration *)

Section Enumeration.
Context {K : Type} `{ScalarOps K}.

(** The cell vectors of a family form a rectangular array. *)
Lemma cell_vectors_array (o : object K) vs :
  cell_vectors o = Ok vs → Forall (fun v => length v = n_cols vs) vs.
Proof.
  intros Hvs. destruct (cell_vectors_planar o vs Hvs) as [Hall _].
  destruct Hall as [|v vs' Hv Hvs']; [constructor|].
  simpl. rewrite Hv. by constructor.
Qed.

(** C1, amended.  On every instance holding a shape with one repeat
    count per cell vector, whose ranges can be copied into memory (every
    count below [2^60], their total within the free memory), [enumerate]
    yields exactly the atoms of the specification: the multi-indices
    [0 <= i_k < shape[k]] in row-major order (last index fastest), for
    each of them the cell atoms in declared order, each at
    [lattice_spacing * (sum_k i_k * cellVector_k + a)] with the flag
    [true].  The atom of multi-index [i] and cell atom number [k] is at
    position [rank(i) * len(cell_atoms) + k] of the sequence. *)
Theorem enumerate_row_major (mem : Z) (o : object K) shape spacing vectors :
  well_formed o shape spacing vectors →
  materialisable mem shape →
  ∃ l, enumerate mem o = Ok l
    ∧ l = spec_enumerate spacing vectors (cell_atoms (cls o)) shape
    ∧ ∀ index k a,
        index_in_shape index shape →
        cell_atoms (cls o) !! k = Some a →
        l !! (Z.to_nat (row_major_rank shape index)
              * length (cell_atoms (cls o)) + k)%nat
        = Some (mkLocationInfo (spec_position spacing vectors index a) true).
Proof.
  intros Hwf Hfit. eexists. split; [by apply enumerate_wf|].
  rewrite (enumerated_spec _ _ _ _
             (cell_vectors_array o vectors (wf_vectors _ _ _ _ Hwf))).
  split; [done|].
  intros index k a Hin Ha. by apply spec_enumerate_lookup.
Qed.

(** Without room for the ranges nothing is enumerated: the call raises
    [OverflowError] or [MemoryError]. *)
Lemma enumerate_not_materialisable (mem : Z) (o : object K) shape :
  0 ≤ mem →
  attrs o !! "shape" = Some (VTuple shape) →
  ¬ materialisable mem shape →
  enumerate mem o = Raise OverflowError ∨ enumerate mem o = Raise MemoryError.
Proof.
  intros Hmem Hsh Hex. unfold enumerate, getattr. rewrite Hsh. simpl.
  destruct (product_range_not_materialisable mem shape Hmem Hex) as [->| ->]; auto.
Qed.

End Enumeration.

(** C1, as stated, fails on shapes whose ranges cannot be copied: on
    every machine [Chain(2^63)] raises [OverflowError] and
    [Chain(2^63 - 1)] raises [MemoryError], and nothing is yielded. *)
Lemma enumerate_Chain_too_long :
  (∀ mem, enumerate mem (Chain_init (2^63) (Qs_ofZ 1)) = Raise OverflowError)
  ∧ (∀ mem, enumerate mem (Chain_init (2^63 - 1) (Qs_ofZ 1)) = Raise MemoryError).
Proof. split; intros mem; reflexivity. Qed.

Lemma enumerate_row_major_witness :
  ∃ l, enumerate 100 (Honeycomb_init 2 (Qs_ofZ 1)) = Ok l
    ∧ l = spec_enumerate (Qs_ofZ 1)
            [[kofZ 1; kofZ 0]; [half; kdiv ksqrt3 (kofZ 2)]]
            (cell_atoms Honeycomb) [2; 2]
    ∧ ∀ index k a,
        index_in_shape index [2; 2] →
        cell_atoms Honeycomb !! k = Some a →
        l !! (Z.to_nat (row_major_rank [2; 2]%Z index)
              * length (cell_atoms (K := Qsqrt3) Honeycomb) + k)%nat
        = Some (mkLocationInfo
                  (spec_position (Qs_ofZ 1)
                     [[kofZ 1; kofZ 0]; [half; kdiv ksqrt3 (kofZ 2)]] index a)
                  true).
Proof.
  apply (enumerate_row_major 100 (Honeycomb_init 2 (Qs_ofZ 1))).
  - split; reflexivity.
  - split; [repeat (constructor; [lia|]); constructor | simpl; lia].
Defined.

(** ** The copy made by [scale] *)

Section Scale.
Context {K : Type} `{ScalarOps K}.

Lemma getattr_ratio_Rectangular (o : object K) :
  cls o = Rectangular → getattr o "ratio" = Ok (ratio_of o).
Proof.
  intros Hc. unfold ratio_of, getattr. rewrite Hc. simpl.
  by destruct (attrs o !! "ratio").
Qed.

Lemma scale_unfold (o : object K) (factor : K) :
  scale o factor
  = (shape ← getattr o "shape";
     spacing ← getattr o "lattice_spacing" ≫= as_scalar;
     Ok {| cls := cls o;
           attrs := copy_attrs (cls o) shape (kmul factor spacing) (ratio_of o) |}).
Proof.
  unfold scale, copy_attrs, cast.
  destruct (cls o) eqn:Hc; simpl.
  all: rewrite ?decide_False by done; rewrite ?decide_True by done.
  all: destruct (getattr o "shape") as [vsh|e]; simpl; [|done].
  all: rewrite ?decide_False by done; rewrite ?decide_True by done.
  all: destruct (getattr o "lattice_spacing") as [vsp|e]; simpl; [|done].
  all: destruct (as_scalar vsp) as [s|e]; simpl; [|done].
  all: try done.
  rewrite ?decide_False by done.
  rewrite (getattr_ratio_Rectangular o Hc). simpl. done.
Qed.

End Scale.

(** ** Constructed and valid instances *)

Section Instances.
Context {K : Type} `{ScalarOps K}.

Lemma construct_cls (c : ctor_call K) : cls (construct c) = ctor_family c.
Proof. by destruct c as [| | ? ? ? []| | | |]. Qed.

Lemma construct_shape (c : ctor_call K) :
  attrs (construct c) !! "shape" = Some (VTuple (spec_shape c)).
Proof. by destruct c as [| | ? ? ? []| | | |]. Qed.

Lemma construct_spacing (c : ctor_call K) :
  attrs (construct c) !! "lattice_spacing" = Some (VScalar (spec_spacing c)).
Proof. by destruct c as [| | ? ? ? []| | | |]. Qed.

Lemma construct_n_atoms_cache (c : ctor_call K) :
  attrs (construct c) !! "_BoundedBravais__n_atoms" = Some VNone.
Proof. by destruct c as [| | ? ? ? []| | | |]. Qed.

Lemma construct_n_dims_cache (c : ctor_call K) :
  attrs (construct c) !! "_BoundedBravais__n_dims" = Some VNone.
Proof. by destruct c as [| | ? ? ? []| | | |]. Qed.

Lemma construct_cell_vectors (c : ctor_call K) :
  cell_vectors (construct c) = Ok (spec_cell_vectors c).
Proof. by destruct c as [| | ? ? ? []| | | |]. Qed.

Lemma construct_wf (c : ctor_call K) :
  well_formed (construct c) (spec_shape c) (spec_spacing c) (spec_cell_vectors c).
Proof.
  split.
  - apply construct_shape.
  - apply construct_spacing.
  - apply construct_cell_vectors.
  - by destruct c.
Qed.

Lemma getattr_attrs (o : object K) name v :
  attrs o !! name = Some v → getattr o name = Ok v.
Proof. intros Hv. unfold getattr. by rewrite Hv. Qed.

Lemma scale_wf (o o' : object K) factor shape s vs :
  well_formed o shape s vs →
  scale o factor = Ok o' →
  well_formed o' shape (kmul factor s) vs.
Proof.
  intros [Hsh Hsp Hvs Hd]. rewrite scale_unfold.
  rewrite (getattr_attrs _ _ _ Hsh), (getattr_attrs _ _ _ Hsp). simpl.
  intros [= <-]. split; simpl; try done.
  - unfold copy_attrs. destruct (cls o); by simplify_map_eq.
  - unfold copy_attrs. destruct (cls o); by simplify_map_eq.
  - revert Hvs. unfold cell_vectors. simpl.
    destruct (cls o) eqn:Hc; try done.
    rewrite (getattr_ratio_Rectangular o Hc).
    unfold getattr, copy_attrs. simpl. by simplify_map_eq.
Qed.

Lemma valid_wf (o : object K) :
  valid o → ∃ shape s vs, well_formed o shape s vs.
Proof.
  induction 1 as [c|o factor o' _ (shape & s & vs & Hwf) Hscale].
  - eauto using construct_wf.
  - eauto using scale_wf.
Qed.

Lemma spec_multi_indices_empty shape n :
  In n shape → n ≤ 0 → spec_multi_indices shape = [].
Proof.
  intros Hin Hn. induction shape as [|m rest IH]; simpl; [done|].
  destruct Hin as [->|Hin].
  - unfold seqZ. by replace (Z.to_nat n) with O by lia.
  - rewrite (IH Hin). simpl. by induction (seqZ 0 m).
Qed.

(** Every constructor call enumerates what the table of the families
    specifies for it. *)
Lemma enumerate_construct_spec (mem : Z) (c : ctor_call K) :
  materialisable mem (spec_shape c) →
  enumerate mem (construct c)
  = Ok (spec_enumerate (spec_spacing c) (spec_cell_vectors c)
          (cell_atoms (ctor_family c)) (spec_shape c)).
Proof.
  intros Hfit.
  rewrite (enumerate_wf mem _ _ _ _ (construct_wf c) Hfit), construct_cls.
  by rewrite (enumerated_spec _ _ _ _
                (cell_vectors_array _ _ (construct_cell_vectors c))).
Qed.

End Instances.

(** ** The cached properties *)

Lemma wrap_int64_small z : - 2^63 ≤ z < 2^63 → wrap_int64 z = z.
Proof. intros Hz. unfold wrap_int64. rewrite Z.mod_small; lia. Qed.

Lemma fold_mul_nonneg (shape : list Z) :
  Forall (fun n => 0 ≤ n) shape →
  0 ≤ fold_right Z.mul 1 shape ∧ map (Z.max 0) shape = shape.
Proof.
  induction 1 as [|n shape Hn _ [IH1 IH2]]; simpl; [done|].
  rewrite IH2. split; [nia | f_equal; lia].
Qed.

Lemma fold_mul_zero (shape : list Z) :
  In 0 shape → fold_right Z.mul 1 shape = 0.
Proof.
  induction shape as [|n shape IH]; simpl; [done|].
  intros [->|Hin]; [done|]. rewrite (IH Hin). lia.
Qed.

Lemma fold_mul_nonzero (shape : list Z) :
  Forall (fun n => n ≠ 0) shape → fold_right Z.mul 1 shape ≠ 0.
Proof. induction 1 as [|a rest Ha _ IH]; simpl; [lia|nia]. Qed.

(** Without a zero entry no entry exceeds the product in absolute value. *)
Lemma fold_mul_entry_bound (shape : list Z) :
  Forall (fun n => n ≠ 0) shape →
  Forall (fun n => Z.abs n ≤ Z.abs (fold_right Z.mul 1 shape)) shape.
Proof.
  induction 1 as [|a rest Ha Hrest IH]; constructor.
  - pose proof (fold_mul_nonzero rest Hrest) as Hp.
    simpl fold_right. rewrite Z.abs_mul.
    assert (Hone : 1 ≤ Z.abs (fold_right Z.mul 1 rest)) by lia.
    revert Hone. generalize (Z.abs (fold_right Z.mul 1 rest)) as y.
    assert (Hx : 0 ≤ Z.abs a) by lia.
    revert Hx. generalize (Z.abs a) as x. intros x Hx y Hy. nia.
  - eapply Forall_impl; [exact IH|]. intros n Hn.
    simpl fold_right. rewrite Z.abs_mul.
    assert (Hone : 1 ≤ Z.abs a) by lia.
    assert (Hy : 0 ≤ Z.abs (fold_right Z.mul 1 rest)) by lia.
    revert Hn Hone Hy. generalize (Z.abs (fold_right Z.mul 1 rest)) as y.
    generalize (Z.abs a) as x. generalize (Z.abs n) as m.
    intros m x y Hn Hone Hy. nia.
Qed.

Section Properties.
Context {K : Type} `{ScalarOps K}.

Lemma n_atoms_compute (o : object K) cached shape :
  attrs o !! "_BoundedBravais__n_atoms" = Some cached →
  truthy cached = false →
  attrs o !! "shape" = Some (VTuple shape) →
  let n := wrap_int64 (Z.of_nat (length (cell_atoms (cls o))) * np_prod shape) in
  n_atoms o = Ok (VInt n, setattr o "_BoundedBravais__n_atoms" (VInt n), true).
Proof.
  intros Hc Hf Hsh n. unfold n_atoms.
  rewrite (getattr_attrs _ _ _ Hc). simpl. rewrite Hf. simpl.
  rewrite (getattr_attrs _ _ _ Hsh). simpl.
  unfold getattr, setattr. simpl. by rewrite lookup_insert_eq.
Qed.

Lemma n_atoms_cached (o : object K) cached :
  attrs o !! "_BoundedBravais__n_atoms" = Some cached →
  truthy cached = true →
  n_atoms o = Ok (cached, o, false).
Proof.
  intros Hc Ht. unfold n_atoms.
  rewrite (getattr_attrs _ _ _ Hc). simpl. by rewrite Ht.
Qed.

Lemma n_dims_compute (o : object K) cached vs :
  attrs o !! "_BoundedBravais__n_dims" = Some cached →
  truthy cached = false →
  cell_vectors o = Ok vs →
  let d := Z.of_nat (length vs) in
  n_dims o = Ok (VInt d, setattr o "_BoundedBravais__n_dims" (VInt d), true).
Proof.
  intros Hc Hf Hvs d. unfold n_dims.
  rewrite (getattr_attrs _ _ _ Hc). simpl. rewrite Hf. simpl.
  rewrite Hvs. simpl.
  unfold getattr, setattr. simpl. by rewrite lookup_insert_eq.
Qed.

(** C2 fails on the code.  [n_atoms] multiplies with [np.prod], in
    signed 64-bit arithmetic: on [Square(2^32)], whose shape is
    [(2^32, 2^32)], the product [2^64] wraps to [0] and [n_atoms] returns
    [0], where [len(cell_atoms) * prod(shape)], the number of atoms the
    docstrings promise, is [2^64]. *)
Theorem n_atoms_wraps_Square (s : K) :
  ∃ o',
    getattr (Square_init (2^32) s) "shape" = Ok (VTuple [2^32; 2^32])
    ∧ n_atoms (Square_init (2^32) s) = Ok (VInt 0, o', true)
    ∧ spec_n_atoms (K := K) Square [2^32; 2^32] = 2^64.
Proof.
  eexists. split; [reflexivity|]. split; [|reflexivity].
  exact (n_atoms_compute (Square_init (2^32) s) VNone [2^32; 2^32]
           eq_refl eq_refl eq_refl).
Qed.

(** X16.  For every constructor call whose repeat counts are
    non-negative, whose ranges can be copied into memory and whose atom
    count [len(cell_atoms) * prod(shape)] is below [2^63], [n_atoms]
    returns that count, and it is the number of elements [enumerate]
    yields. *)
Theorem n_atoms_counts_enumerate (mem : Z) (c : ctor_call K) :
  Forall (fun n => 0 ≤ n) (spec_shape c) →
  materialisable mem (spec_shape c) →
  spec_n_atoms (K := K) (ctor_family c) (spec_shape c) < 2^63 →
  ∃ o' l,
    getattr (construct c) "shape" = Ok (VTuple (spec_shape c))
    ∧ cls (construct c) = ctor_family c
    ∧ n_atoms (construct c)
      = Ok (VInt (spec_n_atoms (K := K) (ctor_family c) (spec_shape c)), o', true)
    ∧ enumerate mem (construct c) = Ok l
    ∧ Z.of_nat (length l) = spec_n_atoms (K := K) (ctor_family c) (spec_shape c).
Proof.
  intros Hnn Hfit Hbound. unfold spec_n_atoms in *.
  destruct (fold_mul_nonneg _ Hnn) as [Hpos Hmax].
  assert (Hatoms : 1 ≤ Z.of_nat (length (cell_atoms (K := K) (ctor_family c))))
    by (destruct c; simpl; lia).
  eexists _, _.
  split; [apply getattr_attrs, construct_shape|].
  split; [apply construct_cls|].
  split; [|split].
  - rewrite (n_atoms_compute _ VNone (spec_shape c)
               (construct_n_atoms_cache c) eq_refl (construct_shape c)).
    rewrite construct_cls. unfold np_prod.
    rewrite (wrap_int64_small (fold_right Z.mul 1 (spec_shape c))) by nia.
    rewrite wrap_int64_small by nia. reflexivity.
  - apply (enumerate_wf mem _ _ _ _ (construct_wf c) Hfit).
  - rewrite enumerated_count, Hmax, construct_cls. done.
Qed.

End Properties.

Lemma n_atoms_counts_enumerate_witness :
  ∃ o' l,
    getattr (construct (CallKagome 5 (Qs_ofZ 1))) "shape" = Ok (VTuple [5; 5])
    ∧ cls (construct (CallKagome 5 (Qs_ofZ 1))) = Kagome
    ∧ n_atoms (construct (CallKagome 5 (Qs_ofZ 1))) = Ok (VInt 75, o', true)
    ∧ enumerate 100 (construct (CallKagome 5 (Qs_ofZ 1))) = Ok l
    ∧ Z.of_nat (length l) = 75.
Proof.
  apply (n_atoms_counts_enumerate 100 (CallKagome 5 (Qs_ofZ 1))).
  - repeat constructor; lia.
  - split; [repeat (constructor; [lia|]); constructor | simpl; lia].
  - reflexivity.
Defined.

(** ** The scale transform *)

Section ScaleFrame.
Context {K : Type} `{ScalarOps K}.

(** C3.  [scale(factor)] on an instance stored at [l] allocates a new
    instance of the same class whose shape (and ratio, for Rectangular)
    is the original's and whose [lattice_spacing] is
    [factor * lattice_spacing]; the original instance at [l], like every
    other object of the heap, is left as it was. *)
Theorem heap_scale_frame (h : gmap loc (object K)) (l : loc) (o : object K)
    (factor s : K) (shape : value K) :
  h !! l = Some o →
  getattr o "shape" = Ok shape →
  getattr o "lattice_spacing" = Ok (VScalar s) →
  ∃ l' h' o',
    heap_scale h l factor = Ok (l', h')
    ∧ h !! l' = None
    ∧ h' !! l' = Some o'
    ∧ cls o' = cls o
    ∧ getattr o' "shape" = Ok shape
    ∧ getattr o' "lattice_spacing" = Ok (VScalar (kmul factor s))
    ∧ (cls o = Rectangular → getattr o' "ratio" = getattr o "ratio")
    ∧ h' !! l = Some o
    ∧ ∀ l'', l'' ≠ l' → h' !! l'' = h !! l''.
Proof.
  intros Hl Hsh Hsp.
  assert (Hfresh : h !! fresh (dom h) = None)
    by (apply not_elem_of_dom, is_fresh).
  unfold heap_scale, deref. rewrite Hl. simpl.
  rewrite scale_unfold, Hsh, Hsp. simpl. unfold alloc.
  eexists _, _, _. split; [reflexivity|].
  split; [exact Hfresh|].
  split; [apply lookup_insert_eq|].
  split; [done|].
  split; [|split; [|split; [|split]]].
  - unfold getattr, copy_attrs. simpl. destruct (cls o); by simplify_map_eq.
  - unfold getattr, copy_attrs. simpl. destruct (cls o); by simplify_map_eq.
  - intros Hc. rewrite (getattr_ratio_Rectangular o Hc).
    unfold getattr, copy_attrs. simpl. rewrite Hc. by simplify_map_eq.
  - rewrite lookup_insert_ne; [done|]. intros Heq. congruence.
  - intros l'' Hne. by rewrite lookup_insert_ne.
Qed.

End ScaleFrame.

Lemma heap_scale_frame_witness :
  ∃ l' h' o',
    heap_scale {[ 1%positive := Rectangular_init 2 3 (Qs_ofZ 2) None ]} 1%positive
      (Qs_ofZ 3) = Ok (l', h')
    ∧ ({[ 1%positive := Rectangular_init 2 3 (Qs_ofZ 2) None ]}
         : gmap loc (object Qsqrt3)) !! l' = None
    ∧ h' !! l' = Some o'
    ∧ cls o' = Rectangular
    ∧ getattr o' "shape" = Ok (VTuple [2; 3])
    ∧ getattr o' "lattice_spacing" = Ok (VScalar (kmul (Qs_ofZ 3) (Qs_ofZ 2)))
    ∧ (Rectangular = Rectangular →
       getattr o' "ratio"
       = getattr (Rectangular_init 2 3 (Qs_ofZ 2) None) "ratio")
    ∧ h' !! 1%positive = Some (Rectangular_init 2 3 (Qs_ofZ 2) None)
    ∧ ∀ l'', l'' ≠ l' →
        h' !! l''
        = ({[ 1%positive := Rectangular_init 2 3 (Qs_ofZ 2) None ]}
             : gmap loc (object Qsqrt3)) !! l''.
Proof.
  apply (heap_scale_frame
           {[ 1%positive := Rectangular_init 2 3 (Qs_ofZ 2) None ]} 1%positive
           (Rectangular_init 2 3 (Qs_ofZ 2) None) (Qs_ofZ 3) (Qs_ofZ 2)
           (VTuple [2; 3])); reflexivity.
Defined.

(** ** Caching, empty lattices, constructors *)

Section Caching.
Context {K : Type} `{ScalarOps K}.

(** A count that is not zero is computed once: the second access returns
    the cached value. *)
Lemma n_atoms_cached_nonzero (o : object K) shape n :
  attrs o !! "_BoundedBravais__n_atoms" = Some VNone →
  attrs o !! "shape" = Some (VTuple shape) →
  n = wrap_int64 (Z.of_nat (length (cell_atoms (cls o))) * np_prod shape) →
  n ≠ 0 →
  ∃ o1, n_atoms o = Ok (VInt n, o1, true) ∧ n_atoms o1 = Ok (VInt n, o1, false).
Proof.
  intros Hc Hsh -> Hn. eexists. split.
  - apply (n_atoms_compute o VNone shape Hc eq_refl Hsh).
  - apply n_atoms_cached.
    + unfold setattr. simpl. apply lookup_insert_eq.
    + simpl. apply negb_true_iff. by apply Z.eqb_neq.
Qed.

(** C5 fails on the code: on [Square(0)] the count is [0], the test
    [if not self.__n_atoms] takes it for a missing value, and every
    access runs the computation again. *)
Theorem n_atoms_zero_recomputed (s : K) :
  ∃ o1 o2,
    n_atoms (Square_init 0 s) = Ok (VInt 0, o1, true)
    ∧ attrs o1 !! "_BoundedBravais__n_atoms" = Some (VInt 0)
    ∧ n_atoms o1 = Ok (VInt 0, o2, true).
Proof.
  set (o1 := setattr (Square_init 0 s) "_BoundedBravais__n_atoms" (VInt 0)).
  exists o1, (setattr o1 "_BoundedBravais__n_atoms" (VInt 0)).
  split; [|split].
  - exact (n_atoms_compute (Square_init 0 s) VNone [0; 0] eq_refl eq_refl eq_refl).
  - reflexivity.
  - exact (n_atoms_compute o1 (VInt 0) [0; 0] eq_refl eq_refl eq_refl).
Qed.


(** C8.  After any constructor call the shape has one entry per cell
    vector and [n_dims] returns this number. *)
Theorem n_dims_matches_shape (c : ctor_call K) :
  ∃ shape vs o',
    getattr (construct c) "shape" = Ok (VTuple shape)
    ∧ shape = spec_shape c
    ∧ cell_vectors (construct c) = Ok vs
    ∧ length vs = length shape
    ∧ n_dims (construct c) = Ok (VInt (Z.of_nat (length shape)), o', true).
Proof.
  exists (spec_shape c), (spec_cell_vectors c). eexists.
  split; [apply getattr_attrs, construct_shape|].
  split; [done|].
  split; [apply construct_cell_vectors|].
  assert (Hlen : length (spec_cell_vectors c) = length (spec_shape c))
    by (by destruct c).
  split; [exact Hlen|].
  rewrite <- Hlen.
  apply (n_dims_compute _ VNone _ (construct_n_dims_cache c) eq_refl
           (construct_cell_vectors c)).
Qed.

(** C9, amended.  Every cell vector of every family has two components;
    [n_dims], the number of cell vectors, is 2 for every family but
    Chain, where it is 1. *)
Theorem cell_vectors_two_components (c : ctor_call K) :
  ∃ vs d o',
    cell_vectors (construct c) = Ok vs
    ∧ n_dims (construct c) = Ok (VInt d, o', true)
    ∧ Forall (fun v => length v = 2%nat) vs
    ∧ d = match ctor_family c with Chain => 1 | _ => 2 end.
Proof.
  exists (spec_cell_vectors c). eexists _, _.
  split; [apply construct_cell_vectors|].
  split; [apply (n_dims_compute _ VNone _ (construct_n_dims_cache c) eq_refl
                   (construct_cell_vectors c))|].
  split.
  - destruct c; repeat constructor.
  - by destruct c.
Qed.

(** The copy made by [scale] has neither of the two cache attributes. *)
Lemma scale_lacks_caches (o o' : object K) (factor : K) :
  scale o factor = Ok o' →
  attrs o' !! "_BoundedBravais__n_atoms" = None
  ∧ attrs o' !! "_BoundedBravais__n_dims" = None
  ∧ n_atoms o' = Raise (AttributeError "_BoundedBravais__n_atoms")
  ∧ n_dims o' = Raise (AttributeError "_BoundedBravais__n_dims").
Proof.
  rewrite scale_unfold.
  destruct (getattr o "shape") as [vsh|e]; simpl; [|done].
  destruct (getattr o "lattice_spacing" ≫= as_scalar) as [s|e]; simpl; [|done].
  intros [= <-].
  unfold n_atoms, n_dims, getattr, copy_attrs, class_attr. simpl.
  destruct (cls o); by simplify_map_eq.
Qed.

(** C10.  On the copy returned by [scale], for any valid instance and any
    factor, reading [n_atoms] or [n_dims] raises [AttributeError]: the
    two private cache attributes were never set on it. *)
Theorem scaled_copy_lacks_caches (o : object K) (factor : K) :
  valid o →
  ∃ o',
    scale o factor = Ok o'
    ∧ attrs o' !! "_BoundedBravais__n_atoms" = None
    ∧ attrs o' !! "_BoundedBravais__n_dims" = None
    ∧ n_atoms o' = Raise (AttributeError "_BoundedBravais__n_atoms")
    ∧ n_dims o' = Raise (AttributeError "_BoundedBravais__n_dims").
Proof.
  intros Hvalid. destruct (valid_wf o Hvalid) as (shape & s & vs & [Hsh Hsp _ _]).
  assert (Hscale : ∃ o', scale o factor = Ok o').
  { rewrite scale_unfold, (getattr_attrs _ _ _ Hsh), (getattr_attrs _ _ _ Hsp).
    simpl. eauto. }
  destruct Hscale as [o' Hscale]. exists o'.
  split; [exact Hscale|]. by apply (scale_lacks_caches o o' factor).
Qed.

(** The same on the heap: the property read through the new reference
    raises, and leaves no trace. *)
Lemma heap_scaled_copy_lacks_caches (h h' : gmap loc (object K)) l l' factor :
  heap_scale h l factor = Ok (l', h') →
  heap_n_atoms h' l' = Raise (AttributeError "_BoundedBravais__n_atoms")
  ∧ heap_n_dims h' l' = Raise (AttributeError "_BoundedBravais__n_dims").
Proof.
  unfold heap_scale, deref.
  destruct (h !! l) as [o|]; simpl; [|done].
  destruct (scale o factor) as [o'|e] eqn:Hscale; simpl; [|done].
  unfold alloc. intros [= <- <-].
  unfold heap_n_atoms, heap_n_dims, deref. rewrite lookup_insert_eq. simpl.
  destruct (scale_lacks_caches o o' factor Hscale) as (_ & _ & -> & ->).
  done.
Qed.

End Caching.

Lemma scaled_copy_lacks_caches_witness :
  ∃ o',
    scale (construct (CallHoneycomb 3 (Qs_ofZ 1))) (Qs_ofZ 2) = Ok o'
    ∧ attrs o' !! "_BoundedBravais__n_atoms" = None
    ∧ attrs o' !! "_BoundedBravais__n_dims" = None
    ∧ n_atoms o' = Raise (AttributeError "_BoundedBravais__n_atoms")
    ∧ n_dims o' = Raise (AttributeError "_BoundedBravais__n_dims").
Proof.
  apply (scaled_copy_lacks_caches (construct (CallHoneycomb 3 (Qs_ofZ 1))) (Qs_ofZ 2)).
  apply valid_construct.
Defined.



(** C9, as stated, fails on Chain: [n_dims] is 1, the cell vector [(1, 0)]
    has two components. *)
Lemma Chain_cell_vector_planar :
  ∃ o' v,
    n_dims (Chain_init 3 (Qs_ofZ 1)) = Ok (VInt 1, o', true)
    ∧ cell_vectors (Chain_init 3 (Qs_ofZ 1)) = Ok [v]
    ∧ Z.of_nat (length v) ≠ 1.
Proof.
  eexists _, _. split; [|split].
  - apply (n_dims_compute (Chain_init 3 (Qs_ofZ 1)) VNone [[kofZ 1; kofZ 0]]);
      reflexivity.
  - reflexivity.
  - simpl. lia.
Qed.

(** ** Rectangular *)

(** C7.  [Rectangular(width, height, lattice_spacing_x, lattice_spacing_y)]
    stores [ratio = lattice_spacing_y / lattice_spacing_x]
    ([1 / lattice_spacing_x] without a y spacing), hands
    [lattice_spacing_x] to the base class as [lattice_spacing], has shape
    [(width, height)] and second cell vector [(0, ratio)]; the spacings
    [x] and [y] themselves are not stored.  On floats,
    [Rectangular(2, 3, lattice_spacing_x=2.0)] has ratio [0.5] and second
    cell vector [(0, 0.5)]. *)
Theorem Rectangular_init_ratio :
  (∀ (K : Type) (ops : ScalarOps K) (width height : Z) (sx : K) (sy : option K),
     getattr (Rectangular_init width height sx sy) "ratio"
     = Ok (VScalar (spec_ratio sx sy))
     ∧ getattr (Rectangular_init width height sx sy) "lattice_spacing"
       = Ok (VScalar sx)
     ∧ getattr (Rectangular_init width height sx sy) "shape"
       = Ok (VTuple [width; height])
     ∧ cell_vectors (Rectangular_init width height sx sy)
       = Ok [[kofZ 1; kofZ 0]; [kofZ 0; spec_ratio sx sy]]
     ∧ attrs (Rectangular_init width height sx sy) !! "lattice_spacing_x" = None
     ∧ attrs (Rectangular_init width height sx sy) !! "lattice_spacing_y" = None)
  ∧ getattr (Rectangular_init 2 3 2%float None) "ratio" = Ok (VScalar 0.5%float)
  ∧ cell_vectors (Rectangular_init 2 3 2%float None)
    = Ok [[1%float; 0%float]; [0%float; 0.5%float]].
Proof.
  split; [|split].
  - intros K ops width height sx sy. by destruct sy.
  - reflexivity.
  - reflexivity.
Qed.

(** ** The scenarios of the specification, run on exact numbers

    A coordinate [a + b * sqrt 3] is shown as the pair [(a, b)]. *)

Example Chain_3_positions :
  show_positions (enumerate 100 (Chain_init 3 (Qs_ofZ 1)))
  = Ok [([(0, 0); (0, 0)], true); ([(1, 0); (0, 0)], true);
        ([(2, 0); (0, 0)], true)]%Q.
Proof. vm_compute. reflexivity. Qed.

Example Square_2_positions :
  show_positions (enumerate 100 (Square_init 2 (Qs_ofZ 1)))
  = Ok [([(0, 0); (0, 0)], true); ([(0, 0); (1, 0)], true);
        ([(1, 0); (0, 0)], true); ([(1, 0); (1, 0)], true)]%Q.
Proof. vm_compute. reflexivity. Qed.

Example Honeycomb_1_positions :
  show_positions (enumerate 100 (Honeycomb_init 1 (Qs_ofZ 1)))
  = Ok [([(0, 0); (0, 0)], true); ([(1 # 2, 0); (0, 1 # 6)], true)]%Q.
Proof. vm_compute. reflexivity. Qed.

Example Rectangular_2_3_positions :
  show_positions (enumerate 100 (Rectangular_init 2 3 (Qs_ofZ 2) None))
  = Ok [([(0, 0); (0, 0)], true); ([(0, 0); (1, 0)], true);
        ([(0, 0); (2, 0)], true); ([(2, 0); (0, 0)], true);
        ([(2, 0); (1, 0)], true); ([(2, 0); (2, 0)], true)]%Q.
Proof. vm_compute. reflexivity. Qed.

Example Kagome_scale_positions :
  show_positions (o ← scale (Kagome_init 1 (Qs_ofZ 1)) (Qs_ofZ 4); enumerate 100 o)
  = Ok [([(0, 0); (0, 0)], true); ([(2, 0); (0, 0)], true);
        ([(1, 0); (0, 1)], true)]%Q.
Proof. vm_compute. reflexivity. Qed.

(** A shape with more entries than the family has cell vectors, which no
    constructor builds, stops the enumeration: numpy cannot broadcast the
    index against the vectors. *)
Example enumerate_shape_mismatch :
  enumerate 100 (BoundedBravais_init (new Square) [2; 2; 2] (Qs_ofZ 1))
  = Raise ValueError.
Proof. vm_compute. reflexivity. Qed.

Example Kagome_5_n_atoms :
  ∃ o', n_atoms (Kagome_init 5 (Qs_ofZ 1)) = Ok (VInt 75, o', true).
Proof. eexists. vm_compute. reflexivity. Qed.

(** * Further properties of the module *)

(** ** Scaling and enumerating *)

Section ScaleEnumerate.
Context {K : Type} `{ScalarOps K}.

Lemma scale_well_formed (o : object K) shape s vs (factor : K) :
  well_formed o shape s vs →
  ∃ o', scale o factor = Ok o'
    ∧ cls o' = cls o
    ∧ well_formed o' shape (kmul factor s) vs.
Proof.
  intros Hwf. pose proof Hwf as [Hsh Hsp _ _].
  assert (Hscale : ∃ o', scale o factor = Ok o' ∧ cls o' = cls o).
  { rewrite scale_unfold, (getattr_attrs _ _ _ Hsh), (getattr_attrs _ _ _ Hsp).
    simpl. eauto. }
  destruct Hscale as (o' & Hscale & Hcls). exists o'.
  split; [done|]. split; [done|]. by apply (scale_wf o o' factor).
Qed.

Lemma enumerate_well_formed_spec (mem : Z) (o : object K) shape s vs :
  well_formed o shape s vs →
  materialisable mem shape →
  enumerate mem o = Ok (spec_enumerate s vs (cell_atoms (cls o)) shape).
Proof.
  intros Hwf Hfit. rewrite (enumerate_wf mem _ _ _ _ Hwf Hfit).
  by rewrite (enumerated_spec _ _ _ _
                (cell_vectors_array o vs (wf_vectors _ _ _ _ Hwf))).
Qed.

(** X1.  When the ranges of the shape can be copied into memory,
    enumerating the copy made by [scale(factor)] visits the same cells
    and cell atoms in the same order as the original; only the spacing
    that multiplies each position is replaced by
    [factor * lattice_spacing]. *)
Theorem scale_enumerate (mem : Z) (o : object K) shape s vs (factor : K) :
  well_formed o shape s vs →
  materialisable mem shape →
  ∃ o' l l',
    scale o factor = Ok o'
    ∧ enumerate mem o = Ok l
    ∧ enumerate mem o' = Ok l'
    ∧ l = spec_enumerate s vs (cell_atoms (cls o)) shape
    ∧ l' = spec_enumerate (kmul factor s) vs (cell_atoms (cls o)) shape
    ∧ length l' = length l.
Proof.
  intros Hwf Hfit.
  destruct (scale_well_formed o shape s vs factor Hwf) as (o' & Hscale & Hcls & Hwf').
  exists o'. eexists _, _. split; [exact Hscale|].
  split; [apply (enumerate_well_formed_spec mem _ _ _ _ Hwf Hfit)|].
  split; [rewrite (enumerate_well_formed_spec mem _ _ _ _ Hwf' Hfit), Hcls; reflexivity|].
  split; [done|]. split; [done|].
  unfold spec_enumerate.
  generalize (spec_multi_indices shape) as idxs.
  induction idxs as [|i idxs IH]; simpl; [done|].
  by rewrite !length_app, !length_map, IH.
Qed.

(** X2.  Any chain of [scale] calls on a well-formed instance succeeds;
    the result has the same class, shape and cell vectors, and its
    spacing is the original one multiplied on the left by each factor in
    turn. *)
Theorem scale_chain (factors : list K) (o : object K) shape s vs :
  well_formed o shape s vs →
  ∃ o', foldM scale factors o = Ok o'
    ∧ cls o' = cls o
    ∧ well_formed o' shape (fold_left (fun acc f => kmul f acc) factors s) vs.
Proof.
  revert o s. induction factors as [|f factors IH]; intros o s Hwf; simpl.
  - by exists o.
  - destruct (scale_well_formed o shape s vs f Hwf) as (o1 & -> & Hcls & Hwf1).
    simpl. destruct (IH o1 (kmul f s) Hwf1) as (o' & Hfold & Hcls' & Hwf').
    exists o'. split; [done|]. split; [congruence|done].
Qed.

(** X6.  On every well-formed instance whose ranges can be copied into
    memory, the number of elements [enumerate] yields is
    [len(cell_atoms)] times the product of the repeat counts, a negative
    count counting as zero. *)
Theorem enumerate_count (mem : Z) (o : object K) shape s vs :
  well_formed o shape s vs →
  materialisable mem shape →
  ∃ l, enumerate mem o = Ok l
    ∧ Z.of_nat (length l)
      = Z.of_nat (length (cell_atoms (cls o)))
        * fold_right Z.mul 1 (map (Z.max 0) shape).
Proof.
  intros Hwf Hfit. eexists. split; [apply (enumerate_wf mem _ _ _ _ Hwf Hfit)|].
  apply enumerated_count.
Qed.

Lemma length_cell_origin (vs : list (list K)) index :
  length (cell_origin vs index) = n_cols vs.
Proof. unfold cell_origin, transpose. by rewrite !length_map, length_seq. Qed.

(** X8.  Every record [enumerate] yields on a well-formed instance
    whose ranges can be copied into memory has a position of exactly two
    coordinates and the flag [true]. *)
Theorem enumerate_planar (mem : Z) (o : object K) shape s vs :
  well_formed o shape s vs →
  materialisable mem shape →
  ∃ l, enumerate mem o = Ok l
    ∧ Forall (fun p => length (position p) = 2%nat ∧ filled p = true) l.
Proof.
  intros Hwf Hfit. eexists. split; [apply (enumerate_wf mem _ _ _ _ Hwf Hfit)|].
  destruct (cell_vectors_planar o vs (wf_vectors _ _ _ _ Hwf)) as [Hall Hlen].
  assert (Hcols : n_cols vs = 2%nat).
  { destruct Hall as [|v vs' Hv _]; [|done].
    simpl in Hlen. by destruct (cls o). }
  unfold enumerated. apply List.Forall_forall. intros p Hp.
  apply in_flat_map in Hp as (index & _ & Hp).
  apply in_map_iff in Hp as (atom & <- & Hatom). simpl. split; [|done].
  pose proof (cell_atoms_planar (K := K) (cls o)) as Hatoms.
  rewrite List.Forall_forall in Hatoms. specialize (Hatoms atom Hatom).
  rewrite length_map, length_zip_with, length_cell_origin, Hcols. lia.
Qed.

End ScaleEnumerate.

(** ** Reading the cached properties *)

Section PropertyAccess.
Context {K : Type} `{ScalarOps K}.

Lemma getattr_setattr_ne (o : object K) name name' v :
  name ≠ name' → getattr (setattr o name v) name' = getattr o name'.
Proof.
  intros Hne. unfold getattr, setattr. simpl. by rewrite lookup_insert_ne.
Qed.

(** [enumerate] and [scale] read the class and three attributes only. *)
Lemma enumerate_ext (mem : Z) (o o' : object K) :
  cls o = cls o' →
  getattr o "shape" = getattr o' "shape" →
  getattr o "lattice_spacing" = getattr o' "lattice_spacing" →
  getattr o "ratio" = getattr o' "ratio" →
  enumerate mem o = enumerate mem o'.
Proof.
  intros Hcls Hsh Hsp Hratio.
  assert (Hcv : cell_vectors o = cell_vectors o')
    by (unfold cell_vectors; by rewrite Hcls, Hratio).
  assert (Hco : ∀ index, coordinates o index = coordinates o' index)
    by (intros index; unfold coordinates; by rewrite Hcv, Hcls).
  unfold enumerate. rewrite Hsh.
  destruct (getattr o' "shape" ≫= as_tuple) as [shape|e]; simpl; [|done].
  destruct (itertools_product mem (map range shape)) as [indices|e]; simpl; [|done].
  f_equal. apply mapM_ext_in. intros index _. by rewrite Hco, Hsp.
Qed.

Lemma scale_ext (o o' : object K) factor :
  cls o = cls o' →
  getattr o "shape" = getattr o' "shape" →
  getattr o "lattice_spacing" = getattr o' "lattice_spacing" →
  getattr o "ratio" = getattr o' "ratio" →
  scale o factor = scale o' factor.
Proof.
  intros Hcls Hsh Hsp Hratio. rewrite !scale_unfold.
  unfold ratio_of. by rewrite Hcls, Hsh, Hsp, Hratio.
Qed.

Lemma n_atoms_inv (o o' : object K) v b :
  n_atoms o = Ok (v, o', b) →
  o' = o ∨ ∃ n, o' = setattr o "_BoundedBravais__n_atoms" (VInt n).
Proof.
  unfold n_atoms.
  destruct (getattr o "_BoundedBravais__n_atoms") as [c|e]; simpl; [|done].
  destruct (truthy c); simpl; [intros [= _ <- _]; by left|].
  destruct (getattr o "shape" ≫= as_tuple) as [shape|e]; simpl; [|done].
  match goal with |- context [getattr ?x _] => destruct (getattr x _) end;
    simpl; [|done].
  intros [= _ <- _]. right. eauto.
Qed.

Lemma n_dims_inv (o o' : object K) v b :
  n_dims o = Ok (v, o', b) →
  o' = o ∨ ∃ n, o' = setattr o "_BoundedBravais__n_dims" (VInt n).
Proof.
  unfold n_dims.
  destruct (getattr o "_BoundedBravais__n_dims") as [c|e]; simpl; [|done].
  destruct (truthy c); simpl; [intros [= _ <- _]; by left|].
  destruct (cell_vectors o) as [vs|e]; simpl; [|done].
  match goal with |- context [getattr ?x _] => destruct (getattr x _) end;
    simpl; [|done].
  intros [= _ <- _]. right. eauto.
Qed.

(** X5.  Reading [n_atoms] or [n_dims] changes nothing of the instance
    but the two private cache attributes: class and every other
    attribute stay, and [enumerate] and [scale] behave on the instance
    after the access exactly as before it. *)
Theorem property_access_frame (o o' : object K) (v : value K) (b : bool) :
  n_atoms o = Ok (v, o', b) ∨ n_dims o = Ok (v, o', b) →
  cls o' = cls o
  ∧ (∀ name, name ≠ "_BoundedBravais__n_atoms" →
             name ≠ "_BoundedBravais__n_dims" →
             attrs o' !! name = attrs o !! name)
  ∧ (∀ mem, enumerate mem o' = enumerate mem o)
  ∧ ∀ factor, scale o' factor = scale o factor.
Proof.
  intros Haccess.
  assert (Hshape : o' = o ∨ ∃ name n,
            (name = "_BoundedBravais__n_atoms" ∨ name = "_BoundedBravais__n_dims")
            ∧ o' = setattr o name (VInt n)).
  { destruct Haccess as [Ha|Hd].
    - destruct (n_atoms_inv _ _ _ _ Ha) as [->|[n ->]]; [by left|].
      right. eauto.
    - destruct (n_dims_inv _ _ _ _ Hd) as [->|[n ->]]; [by left|].
      right. eauto. }
  destruct Hshape as [->|(name & n & Hname & ->)]; [done|].
  assert (Hget : ∀ name', name' ≠ "_BoundedBravais__n_atoms" →
                          name' ≠ "_BoundedBravais__n_dims" →
            getattr (setattr o name (VInt n)) name' = getattr o name').
  { intros name' H1 H2. apply getattr_setattr_ne. destruct Hname; congruence. }
  split; [done|]. split.
  - intros name' H1 H2. unfold setattr. simpl.
    apply lookup_insert_ne. destruct Hname; congruence.
  - split; [intros mem|intros factor]; [apply enumerate_ext|apply scale_ext];
      try done; by apply Hget.
Qed.

Lemma n_dims_cached (o : object K) cached :
  attrs o !! "_BoundedBravais__n_dims" = Some cached →
  truthy cached = true →
  n_dims o = Ok (cached, o, false).
Proof.
  intros Hc Ht. unfold n_dims.
  rewrite (getattr_attrs _ _ _ Hc). simpl. by rewrite Ht.
Qed.

(** X3.  On every constructed instance [n_dims] is computed by the
    first access only: it returns 1 or 2, and every later access returns
    the cached number and leaves the instance as it is. *)
Theorem n_dims_computed_once (c : ctor_call K) :
  ∃ d o1,
    n_dims (construct c) = Ok (VInt d, o1, true)
    ∧ (d = 1 ∨ d = 2)
    ∧ n_dims o1 = Ok (VInt d, o1, false).
Proof.
  eexists _, _. split; [|split].
  - apply (n_dims_compute _ VNone _ (construct_n_dims_cache c) eq_refl
             (construct_cell_vectors c)).
  - destruct c; simpl; auto.
  - apply n_dims_cached.
    + unfold setattr. simpl. apply lookup_insert_eq.
    + by destruct c.
Qed.

(** X4.  On a constructed instance whose repeat counts are all positive
    and whose atom count is below [2^63], [n_atoms] is computed by the
    first access only: the second access returns the cached count and
    leaves the instance as it is. *)
Theorem n_atoms_computed_once (c : ctor_call K) :
  Forall (fun n => 0 < n) (spec_shape c) →
  spec_n_atoms (K := K) (ctor_family c) (spec_shape c) < 2^63 →
  ∃ o1,
    n_atoms (construct c)
    = Ok (VInt (spec_n_atoms (K := K) (ctor_family c) (spec_shape c)), o1, true)
    ∧ n_atoms o1
      = Ok (VInt (spec_n_atoms (K := K) (ctor_family c) (spec_shape c)), o1, false).
Proof.
  intros Hpos Hbound. unfold spec_n_atoms in *.
  assert (Hprod : 0 < fold_right Z.mul 1 (spec_shape c)).
  { clear Hbound. induction Hpos as [|n shape Hn _ IH]; simpl; [lia|nia]. }
  assert (Hatoms : 1 ≤ Z.of_nat (length (cell_atoms (K := K) (ctor_family c))))
    by (destruct c; simpl; lia).
  apply (n_atoms_cached_nonzero (construct c) (spec_shape c)).
  - apply construct_n_atoms_cache.
  - apply construct_shape.
  - rewrite construct_cls. unfold np_prod.
    rewrite (wrap_int64_small (fold_right Z.mul 1 (spec_shape c))) by nia.
    by rewrite wrap_int64_small by nia.
  - nia.
Qed.

(** X7.  No constructor checks its sizes.  With a negative repeat count
    and no zero one, the ranges of the shape fitting into memory and the
    count [len(cell_atoms) * prod(shape)] within the signed 64-bit range,
    every repeat count is a 64-bit integer, [enumerate] yields nothing,
    yet [n_atoms] returns that count, which is not zero. *)
Theorem negative_size_mismatch (mem : Z) (c : ctor_call K) :
  Exists (fun n => n < 0) (spec_shape c) →
  Forall (fun n => n ≠ 0) (spec_shape c) →
  - 2^63 ≤ spec_n_atoms (K := K) (ctor_family c) (spec_shape c) < 2^63 →
  materialisable mem (spec_shape c) →
  Forall (fun n => - 2^63 ≤ n < 2^63) (spec_shape c)
  ∧ getattr (construct c) "shape" = Ok (VTuple (spec_shape c))
  ∧ enumerate mem (construct c) = Ok []
  ∧ spec_n_atoms (K := K) (ctor_family c) (spec_shape c) ≠ 0
  ∧ ∃ o', n_atoms (construct c)
          = Ok (VInt (spec_n_atoms (K := K) (ctor_family c) (spec_shape c)),
                o', true).
Proof.
  intros Hneg Hnz Hbound Hfit. unfold spec_n_atoms in *.
  assert (Hatoms : 1 ≤ Z.of_nat (length (cell_atoms (K := K) (ctor_family c))))
    by (destruct c; simpl; lia).
  assert (Hprod : fold_right Z.mul 1 (spec_shape c) ≠ 0).
  { clear Hneg Hbound Hfit. induction Hnz as [|n shape Hn _ IH]; simpl; [lia|nia]. }
  split.
  { destruct Hfit as [Hup _].
    pose proof (fold_mul_entry_bound _ Hnz) as Hentries.
    rewrite List.Forall_forall in Hup, Hentries. apply List.Forall_forall.
    intros n Hin. specialize (Hup n Hin). specialize (Hentries n Hin).
    split; [nia|lia]. }
  split; [apply getattr_attrs, construct_shape|]. split; [|split].
  - rewrite (enumerate_wf mem _ _ _ _ (construct_wf c) Hfit). unfold enumerated.
    apply List.Exists_exists in Hneg as (n & Hin & Hn).
    rewrite (spec_multi_indices_empty _ n Hin); [done|lia].
  - nia.
  - eexists.
    rewrite (n_atoms_compute _ VNone (spec_shape c)
               (construct_n_atoms_cache c) eq_refl (construct_shape c)).
    rewrite construct_cls. unfold np_prod.
    rewrite (wrap_int64_small (fold_right Z.mul 1 (spec_shape c))) by nia.
    rewrite wrap_int64_small by nia. reflexivity.
Qed.

(** X12.  The atom count per family: for non-negative sizes within the
    64-bit range, [n_atoms] is [L] for Chain, [L * L] for Square and
    Triangular, [width * height] for Rectangular, [2 * L * L] for
    Honeycomb and [3 * L * L] for Lieb and Kagome. *)
Theorem n_atoms_per_family (c : ctor_call K) :
  Forall (fun n => 0 ≤ n) (spec_shape c) →
  3 * fold_right Z.mul 1 (spec_shape c) < 2^63 →
  ∃ o',
    n_atoms (construct c)
    = Ok (VInt (match c with
                | CallChain L _ => L
                | CallSquare L _ | CallTriangular L _ => L * L
                | CallRectangular w h _ _ => w * h
                | CallHoneycomb L _ => 2 * (L * L)
                | CallLieb L _ | CallKagome L _ => 3 * (L * L)
                end), o', true).
Proof.
  intros Hnn Hbound.
  destruct (fold_mul_nonneg _ Hnn) as [Hpos _].
  assert (Hatoms : 1 ≤ Z.of_nat (length (cell_atoms (K := K) (ctor_family c))) ≤ 3)
    by (destruct c; simpl; lia).
  eexists.
  rewrite (n_atoms_compute _ VNone (spec_shape c)
             (construct_n_atoms_cache c) eq_refl (construct_shape c)).
  rewrite construct_cls. unfold np_prod.
  rewrite (wrap_int64_small (fold_right Z.mul 1 (spec_shape c))) by nia.
  rewrite wrap_int64_small by nia.
  do 4 f_equal. clear.
  destruct c; cbv [ctor_family spec_shape cell_atoms fold_right length]; lia.
Qed.

End PropertyAccess.

(** ** The cells visited by the enumeration *)

Lemma cons_multi_indices_NoDup (xs : list Z) (l : list (list Z)) :
  List.NoDup xs → List.NoDup l →
  List.NoDup (flat_map (fun i => map (cons i) l) xs).
Proof.
  intros Hxs Hl. induction Hxs as [|x xs Hx Hxs IH]; simpl; [constructor|].
  apply List.NoDup_app; [|exact IH|].
  - apply Finite.Injective_map_NoDup; [|exact Hl]. by intros a b [= ->].
  - intros a Ha Hb.
    apply in_map_iff in Ha as (tl & <- & _).
    apply in_flat_map in Hb as (y & Hy & Hb).
    apply in_map_iff in Hb as (tl' & [= -> _] & _). done.
Qed.

Lemma spec_multi_indices_In (shape index : list Z) :
  In index (spec_multi_indices shape) ↔ index_in_shape index shape.
Proof.
  revert index. induction shape as [|n rest IH]; intros index; simpl.
  - split.
    + intros [<-|[]]. constructor.
    + intros Hin. inversion Hin. by left.
  - rewrite in_flat_map. split.
    + intros (i & Hi & Hin).
      apply in_map_iff in Hin as (tl & <- & Htl).
      apply list_elem_of_In, elem_of_seqZ in Hi.
      constructor; [lia|]. by apply IH.
    + intros Hin. inversion Hin as [|i n' tl rest' Hi Htl]; subst.
      exists i. split.
      * apply list_elem_of_In, elem_of_seqZ. lia.
      * apply in_map. by apply IH.
Qed.

(** X10.  When the ranges of the shape can be copied into memory, the
    multi-indices [enumerate] iterates over, [itertools.product] of
    these ranges, are exactly the indices within the bounds of the shape,
    each of them once. *)
Theorem product_range_cells (mem : Z) (shape : list Z) :
  materialisable mem shape →
  ∃ indices,
    itertools_product mem (map range shape) = Ok indices
    ∧ List.NoDup indices
    ∧ ∀ index, In index indices ↔ index_in_shape index shape.
Proof.
  intros Hfit. exists (spec_multi_indices shape).
  split; [apply (product_range_row_major mem shape Hfit)|].
  split; [|apply spec_multi_indices_In]. clear Hfit.
  induction shape as [|n rest IH]; simpl.
  - repeat constructor. by intros [].
  - apply cons_multi_indices_NoDup; [|exact IH].
    apply NoDup_ListNoDup, NoDup_seqZ.
Qed.

(** ** [coordinates] as a method of its own *)

Section Coordinates.
Context {K : Type} `{ScalarOps K}.

Lemma broadcast_mul_cases (d : nat) (rows : list (list K)) (index : list Z) :
  match broadcast_mul d rows index with
  | Ok prods =>
      length prods = length rows
      ∧ (d = length index ∨ d = 1%nat ∨ length index = 1%nat)
  | Raise e =>
      e = ValueError ∧ d ≠ length index ∧ d ≠ 1%nat ∧ length index ≠ 1%nat
  end.
Proof.
  unfold broadcast_mul.
  destruct (decide (d = length index)) as [Hd|Hd].
  { split; [by rewrite length_map|by left]. }
  destruct (decide (d = 1%nat)) as [H1|H1].
  { split; [by rewrite length_map|auto]. }
  destruct index as [|i [|j index]]; simpl in *.
  - repeat split; try done; lia.
  - split; [by rewrite length_map|auto].
  - repeat split; try done; lia.
Qed.

(** X9.  [coordinates(index)] on a constructed instance: for Chain any
    index is accepted; for the families with two cell vectors the index
    must have one or two entries, any other length raises numpy's
    [ValueError].  When it returns, it returns one row of two coordinates
    per cell atom. *)
Theorem coordinates_index_length (c : ctor_call K) (index : list Z) :
  match coordinates (construct c) index with
  | Raise e =>
      e = ValueError ∧ ctor_family c ≠ Chain
      ∧ length index ≠ 1%nat ∧ length index ≠ 2%nat
  | Ok rows =>
      (ctor_family c = Chain ∨ length index = 1%nat ∨ length index = 2%nat)
      ∧ length rows = length (cell_atoms (K := K) (ctor_family c))
      ∧ Forall (fun row => length row = 2%nat) rows
  end.
Proof.
  unfold coordinates. rewrite construct_cell_vectors, construct_cls. simpl.
  pose proof (broadcast_mul_cases (length (spec_cell_vectors c))
                (transpose (spec_cell_vectors c)) index) as Hcases.
  assert (Hcols : length (transpose (spec_cell_vectors c)) = 2%nat)
    by (by destruct c).
  assert (Hlen : length (spec_cell_vectors c)
                 = match ctor_family c with Chain => 1%nat | _ => 2%nat end)
    by (by destruct c).
  destruct (broadcast_mul _ _ index) as [prods|e]; simpl.
  - destruct Hcases as [Hprods Hdims]. split; [|split].
    + rewrite Hlen in Hdims. destruct (ctor_family c); auto.
      all: destruct Hdims as [Hd|[Hd|Hd]]; auto; discriminate.
    + by rewrite length_map.
    + apply List.Forall_forall. intros row Hrow.
      apply in_map_iff in Hrow as (atom & <- & Hatom).
      pose proof (cell_atoms_planar (K := K) (ctor_family c)) as Hatoms.
      rewrite List.Forall_forall in Hatoms. specialize (Hatoms atom Hatom).
      rewrite length_zip_with, length_map. lia.
  - destruct Hcases as (-> & Hd & H1 & Hi). rewrite Hlen in Hd, H1.
    split; [done|]. destruct (ctor_family c); try done; auto.
Qed.

End Coordinates.

(** ** Closed forms over an exact scalar algebra *)

Lemma flat_map_unit {A B} (f : A → B) (xs : list A) :
  flat_map (fun x => [f x]) xs = map f xs.
Proof. induction xs as [|x xs IH]; simpl; congruence. Qed.

Section ExactGrid.
Context {K : Type} `{ScalarOps K}.
Hypothesis kmul_1_l : ∀ x : K, kmul (kofZ 1) x = x.
Hypothesis kmul_0_l : ∀ x : K, kmul (kofZ 0) x = kofZ 0.
Hypothesis kadd_0_l : ∀ x : K, kadd (kofZ 0) x = x.
Hypothesis kadd_0_r : ∀ x : K, kadd x (kofZ 0) = x.
Hypothesis kmul_assoc : ∀ x y z : K, kmul x (kmul y z) = kmul (kmul x y) z.

(** The enumeration of a one-atom family with two cell vectors, as two
    nested loops. *)
Lemma enumerated_two_loops (s : K) (vs : list (list K)) (a b : Z) (atom : list K) :
  enumerated s vs [atom] [a; b]
  = flat_map (fun i =>
      map (fun j =>
        mkLocationInfo
          (map (kmul s) (zip_with kadd (cell_origin vs [i; j]) atom)) true)
        (seqZ 0 b))
      (seqZ 0 a).
Proof.
  unfold enumerated. simpl spec_multi_indices.
  rewrite flat_map_flat_map. apply flat_map_ext. intros i.
  rewrite flat_map_map, flat_map_flat_map. simpl.
  rewrite <- flat_map_unit. apply flat_map_ext. intros j. simpl. done.
Qed.

(** X11.  In an exact scalar algebra ([1 * x = x], [0 * x = 0],
    [0 + x = x + 0 = x], associative product) where
    [sx * (sy / sx) = sy], [Rectangular(width, height, sx, sy)] with
    ranges that can be copied into memory enumerates the grid
    [(sx * i, sy * j)], [i] over [range(width)] in the outer loop and [j]
    over [range(height)] in the inner one. *)
Theorem Rectangular_grid (mem width height : Z) (sx sy : K) :
  kmul sx (kdiv sy sx) = sy →
  materialisable mem [width; height] →
  enumerate mem (Rectangular_init width height sx (Some sy))
  = Ok (flat_map (fun i =>
          map (fun j =>
            mkLocationInfo [kmul sx (kofZ i); kmul sy (kofZ j)] true)
            (seqZ 0 height))
          (seqZ 0 width)).
Proof.
  intros Hdiv Hfit.
  change (Rectangular_init width height sx (Some sy))
    with (construct (CallRectangular width height sx (Some sy))).
  rewrite (enumerate_wf mem _ _ _ _
             (construct_wf (CallRectangular width height sx (Some sy))) Hfit).
  change (cell_atoms (cls (construct (CallRectangular width height sx (Some sy)))))
    with [[kofZ 0; kofZ 0 : K]].
  simpl spec_shape. rewrite enumerated_two_loops. f_equal.
  apply flat_map_ext. intros i. apply map_ext. intros j. f_equal.
  cbn. rewrite kmul_1_l, !kmul_0_l, kadd_0_l, !kadd_0_r.
  by rewrite kmul_assoc, Hdiv.
Qed.

(** X13.  In the same algebra [Square(L, s)], with two copies of
    [range(L)] fitting into memory, enumerates the grid [(s * i, s * j)],
    [i] outer and [j] inner, both over [range(L)]. *)
Theorem Square_grid (mem L : Z) (s : K) :
  materialisable mem [L; L] →
  enumerate mem (Square_init L s)
  = Ok (flat_map (fun i =>
          map (fun j => mkLocationInfo [kmul s (kofZ i); kmul s (kofZ j)] true)
            (seqZ 0 L))
          (seqZ 0 L)).
Proof.
  intros Hfit.
  change (Square_init L s) with (construct (CallSquare L s)).
  rewrite (enumerate_wf mem _ _ _ _ (construct_wf (CallSquare L s)) Hfit).
  change (cell_atoms (cls (construct (CallSquare L s))))
    with [[kofZ 0; kofZ 0 : K]].
  simpl spec_shape. rewrite enumerated_two_loops. f_equal.
  apply flat_map_ext. intros i. apply map_ext. intros j. f_equal.
  cbn. by rewrite !kmul_1_l, !kmul_0_l, kadd_0_l, !kadd_0_r.
Qed.

(** X15.  In the same algebra [Chain(L, s)], with [range(L)] fitting
    into memory, enumerates the points [(s * i, s * 0)] for [i] over
    [range(L)], in this order. *)
Theorem Chain_line (mem L : Z) (s : K) :
  materialisable mem [L] →
  enumerate mem (Chain_init L s)
  = Ok (map (fun i => mkLocationInfo [kmul s (kofZ i); kmul s (kofZ 0)] true)
          (seqZ 0 L)).
Proof.
  intros Hfit.
  change (Chain_init L s) with (construct (CallChain L s)).
  rewrite (enumerate_wf mem _ _ _ _ (construct_wf (CallChain L s)) Hfit).
  change (cell_atoms (cls (construct (CallChain L s))))
    with [[kofZ 0; kofZ 0 : K]].
  unfold enumerated. simpl spec_shape. simpl spec_multi_indices.
  rewrite flat_map_flat_map. rewrite <- flat_map_unit. f_equal.
  apply flat_map_ext. intros i. cbn.
  by rewrite kmul_1_l, kmul_0_l, !kadd_0_r.
Qed.

End ExactGrid.

(** ** The original and its copy on the heap *)

Section HeapCopy.
Context {K : Type} `{ScalarOps K}.

(** X14.  After [y = x.scale(factor)], reading [x.n_atoms] writes the
    cache of [x] only: the copy [y] is a separate object, it is left as
    it was, and [y.n_atoms] still raises [AttributeError]. *)
Theorem scale_copy_independent (h : gmap loc (object K)) (l : loc)
    (o o2 : object K) (factor s : K) (shape v : value K) (b : bool) :
  h !! l = Some o →
  getattr o "shape" = Ok shape →
  getattr o "lattice_spacing" = Ok (VScalar s) →
  n_atoms o = Ok (v, o2, b) →
  ∃ l' h1 h2,
    heap_scale h l factor = Ok (l', h1)
    ∧ heap_n_atoms h1 l = Ok (v, h2, b)
    ∧ l' ≠ l
    ∧ h2 !! l = Some o2
    ∧ h2 !! l' = h1 !! l'
    ∧ heap_n_atoms h2 l' = Raise (AttributeError "_BoundedBravais__n_atoms").
Proof.
  intros Hl Hsh Hsp Hn.
  assert (Hfresh : h !! fresh (dom h) = None)
    by (apply not_elem_of_dom, is_fresh).
  assert (Hne : fresh (dom h) ≠ l) by congruence.
  assert (Hscale : ∃ o', scale o factor = Ok o').
  { rewrite scale_unfold, Hsh, Hsp. simpl. eauto. }
  destruct Hscale as [o' Hscale].
  destruct (scale_lacks_caches o o' factor Hscale) as (_ & _ & Hraise & _).
  unfold heap_scale, deref. rewrite Hl. simpl. rewrite Hscale. simpl.
  unfold alloc. eexists _, _, _. split; [reflexivity|].
  unfold heap_n_atoms, deref.
  rewrite lookup_insert_ne by done. rewrite Hl. simpl. rewrite Hn. simpl.
  split; [reflexivity|]. split; [done|].
  split; [apply lookup_insert_eq|].
  split; [by rewrite lookup_insert_ne|].
  rewrite lookup_insert_ne by done. rewrite lookup_insert_eq. simpl.
  by rewrite Hraise.
Qed.

End HeapCopy.

(** ** Instances of the properties above *)

Lemma Qs_mul_1_l (x : Qsqrt3) : kmul (kofZ 1) x = x.
Proof.
  destruct x as [a b]. simpl. unfold Qs_mul, Qs_ofZ. simpl.
  change (Q2Qc (inject_Z 1)) with (Q2Qc 1). f_equal; ring.
Qed.

Lemma Qs_mul_0_l (x : Qsqrt3) : kmul (kofZ 0) x = kofZ 0.
Proof.
  destruct x as [a b]. simpl. unfold Qs_mul, Qs_ofZ. simpl.
  change (Q2Qc (inject_Z 0)) with (Q2Qc 0). f_equal; ring.
Qed.

Lemma Qs_add_0_l (x : Qsqrt3) : kadd (kofZ 0) x = x.
Proof.
  destruct x as [a b]. simpl. unfold Qs_add, Qs_ofZ. simpl.
  change (Q2Qc (inject_Z 0)) with (Q2Qc 0). f_equal; ring.
Qed.

Lemma Qs_add_0_r (x : Qsqrt3) : kadd x (kofZ 0) = x.
Proof.
  destruct x as [a b]. simpl. unfold Qs_add, Qs_ofZ. simpl.
  change (Q2Qc (inject_Z 0)) with (Q2Qc 0). f_equal; ring.
Qed.

Lemma Qs_two_times_three_halves :
  kmul (Qs_ofZ 2) (kdiv (Qs_ofZ 3) (Qs_ofZ 2)) = Qs_ofZ 3.
Proof.
  simpl. unfold Qs_div, Qs_mul, Qs_inv, Qs_ofZ. simpl.
  f_equal; apply Qc_is_canon; vm_compute; reflexivity.
Qed.

Lemma Rectangular_grid_witness :
  enumerate 100 (Rectangular_init 2 3 (Qs_ofZ 2) (Some (Qs_ofZ 3)))
  = Ok (flat_map (fun i =>
          map (fun j =>
            mkLocationInfo [kmul (Qs_ofZ 2) (kofZ i); kmul (Qs_ofZ 3) (kofZ j)] true)
            (seqZ 0 3))
          (seqZ 0 2)).
Proof.
  apply (Rectangular_grid Qs_mul_1_l Qs_mul_0_l Qs_add_0_l Qs_add_0_r Qs_mul_assoc
           100 2 3 (Qs_ofZ 2) (Qs_ofZ 3)).
  - exact Qs_two_times_three_halves.
  - split; [repeat (constructor; [lia|]); constructor | simpl; lia].
Defined.

Lemma Square_grid_witness :
  enumerate 100 (Square_init 3 (Qs_ofZ 5))
  = Ok (flat_map (fun i =>
          map (fun j =>
            mkLocationInfo [kmul (Qs_ofZ 5) (kofZ i); kmul (Qs_ofZ 5) (kofZ j)] true)
            (seqZ 0 3))
          (seqZ 0 3)).
Proof.
  apply (Square_grid Qs_mul_1_l Qs_mul_0_l Qs_add_0_l Qs_add_0_r 100 3 (Qs_ofZ 5)).
  split; [repeat (constructor; [lia|]); constructor | simpl; lia].
Defined.

Lemma scale_enumerate_witness :
  ∃ o' l l',
    scale (Kagome_init 2 (Qs_ofZ 1)) (Qs_ofZ 3) = Ok o'
    ∧ enumerate 100 (Kagome_init 2 (Qs_ofZ 1)) = Ok l
    ∧ enumerate 100 o' = Ok l'
    ∧ l = spec_enumerate (Qs_ofZ 1)
            [[kofZ 1; kofZ 0]; [half; kdiv ksqrt3 (kofZ 2)]]
            (cell_atoms Kagome) [2; 2]
    ∧ l' = spec_enumerate (kmul (Qs_ofZ 3) (Qs_ofZ 1))
             [[kofZ 1; kofZ 0]; [half; kdiv ksqrt3 (kofZ 2)]]
             (cell_atoms Kagome) [2; 2]
    ∧ length l' = length l.
Proof.
  apply (scale_enumerate 100 (Kagome_init 2 (Qs_ofZ 1)) [2; 2] (Qs_ofZ 1)
           [[kofZ 1; kofZ 0]; [half; kdiv ksqrt3 (kofZ 2)]] (Qs_ofZ 3)).
  - split; reflexivity.
  - split; [repeat (constructor; [lia|]); constructor | simpl; lia].
Defined.

Lemma scale_chain_witness :
  ∃ o', foldM scale [(Qs_ofZ 2); (Qs_ofZ 3); (kdiv (Qs_ofZ 1) (Qs_ofZ 2))] (Chain_init 4 (Qs_ofZ 1)) = Ok o'
    ∧ cls o' = Chain
    ∧ well_formed o' [4]
        (fold_left (fun acc f => kmul f acc) [(Qs_ofZ 2); (Qs_ofZ 3); (kdiv (Qs_ofZ 1) (Qs_ofZ 2))] (Qs_ofZ 1))
        [[kofZ 1; kofZ 0]].
Proof.
  apply (scale_chain [(Qs_ofZ 2); (Qs_ofZ 3); (kdiv (Qs_ofZ 1) (Qs_ofZ 2))] (Chain_init 4 (Qs_ofZ 1)) [4]
           (Qs_ofZ 1) [[kofZ 1; kofZ 0]]).
  split; reflexivity.
Defined.

Lemma enumerate_count_witness :
  ∃ l, enumerate 100 (Rectangular_init 3 (-2) (Qs_ofZ 1) None) = Ok l
    ∧ Z.of_nat (length l)
      = Z.of_nat (length (cell_atoms (K := Qsqrt3) Rectangular))
        * fold_right Z.mul 1 (map (Z.max 0) [3; -2]).
Proof.
  apply (enumerate_count 100 (Rectangular_init 3 (-2) (Qs_ofZ 1) None) [3; -2]
           (Qs_ofZ 1) [[kofZ 1; kofZ 0]; [kofZ 0; kdiv (kofZ 1) (Qs_ofZ 1)]]).
  - split; reflexivity.
  - split; [repeat (constructor; [lia|]); constructor | simpl; lia].
Defined.

Lemma enumerate_planar_witness :
  ∃ l, enumerate 100 (Lieb_init 2 (Qs_ofZ 1)) = Ok l
    ∧ Forall (fun p => length (position p) = 2%nat ∧ filled p = true) l.
Proof.
  apply (enumerate_planar 100 (Lieb_init 2 (Qs_ofZ 1)) [2; 2] (Qs_ofZ 1)
           [[kofZ 1; kofZ 0]; [kofZ 0; kofZ 1]]).
  - split; reflexivity.
  - split; [repeat (constructor; [lia|]); constructor | simpl; lia].
Defined.

Lemma product_range_cells_witness :
  ∃ indices,
    itertools_product 100 (map range [2; 3]) = Ok indices
    ∧ List.NoDup indices
    ∧ ∀ index, In index indices ↔ index_in_shape index [2; 3].
Proof.
  apply (product_range_cells 100 [2; 3]).
  split; [repeat (constructor; [lia|]); constructor | simpl; lia].
Defined.

Lemma property_access_frame_witness :
  cls (setattr (Square_init 2 (Qs_ofZ 1)) "_BoundedBravais__n_atoms" (VInt 4))
  = cls (Square_init 2 (Qs_ofZ 1))
  ∧ (∀ name, name ≠ "_BoundedBravais__n_atoms" →
             name ≠ "_BoundedBravais__n_dims" →
             attrs (setattr (Square_init 2 (Qs_ofZ 1)) "_BoundedBravais__n_atoms" (VInt 4))
               !! name
             = attrs (Square_init 2 (Qs_ofZ 1)) !! name)
  ∧ (∀ mem,
       enumerate mem (setattr (Square_init 2 (Qs_ofZ 1)) "_BoundedBravais__n_atoms" (VInt 4))
       = enumerate mem (Square_init 2 (Qs_ofZ 1)))
  ∧ ∀ factor,
      scale (setattr (Square_init 2 (Qs_ofZ 1)) "_BoundedBravais__n_atoms" (VInt 4)) factor
      = scale (Square_init 2 (Qs_ofZ 1)) factor.
Proof.
  apply (property_access_frame (Square_init 2 (Qs_ofZ 1))
           (setattr (Square_init 2 (Qs_ofZ 1)) "_BoundedBravais__n_atoms" (VInt 4))
           (VInt 4) true).
  left. reflexivity.
Defined.

Lemma n_atoms_computed_once_witness :
  ∃ o1,
    n_atoms (construct (CallHoneycomb 3 (Qs_ofZ 1))) = Ok (VInt 18, o1, true)
    ∧ n_atoms o1 = Ok (VInt 18, o1, false).
Proof.
  apply (n_atoms_computed_once (CallHoneycomb 3 (Qs_ofZ 1))).
  - repeat constructor.
  - reflexivity.
Defined.

Lemma negative_size_mismatch_witness :
  Forall (fun n => - 2^63 ≤ n < 2^63) [-2; -2]
  ∧ getattr (construct (CallSquare (-2) (Qs_ofZ 1))) "shape" = Ok (VTuple [-2; -2])
  ∧ enumerate 100 (construct (CallSquare (-2) (Qs_ofZ 1))) = Ok []
  ∧ 4 ≠ 0
  ∧ ∃ o', n_atoms (construct (CallSquare (-2) (Qs_ofZ 1))) = Ok (VInt 4, o', true).
Proof.
  apply (negative_size_mismatch 100 (CallSquare (-2) (Qs_ofZ 1))).
  - left. reflexivity.
  - repeat constructor; discriminate.
  - split; [discriminate|reflexivity].
  - split; [repeat (constructor; [lia|]); constructor | simpl; lia].
Defined.

Lemma n_atoms_per_family_witness :
  ∃ o', n_atoms (construct (CallLieb 4 (Qs_ofZ 1))) = Ok (VInt 48, o', true).
Proof.
  apply (n_atoms_per_family (CallLieb 4 (Qs_ofZ 1))).
  - repeat constructor; discriminate.
  - reflexivity.
Defined.

Lemma scale_copy_independent_witness :
  ∃ l' h1 h2,
    heap_scale {[ 1%positive := Square_init 2 (Qs_ofZ 1) ]} 1%positive (Qs_ofZ 3)
    = Ok (l', h1)
    ∧ heap_n_atoms h1 1%positive = Ok (VInt 4, h2, true)
    ∧ l' ≠ 1%positive
    ∧ h2 !! 1%positive
      = Some (setattr (Square_init 2 (Qs_ofZ 1)) "_BoundedBravais__n_atoms" (VInt 4))
    ∧ h2 !! l' = h1 !! l'
    ∧ heap_n_atoms h2 l' = Raise (AttributeError "_BoundedBravais__n_atoms").
Proof.
  apply (scale_copy_independent
           {[ 1%positive := Square_init 2 (Qs_ofZ 1) ]} 1%positive
           (Square_init 2 (Qs_ofZ 1))
           (setattr (Square_init 2 (Qs_ofZ 1)) "_BoundedBravais__n_atoms" (VInt 4))
           (Qs_ofZ 3) (Qs_ofZ 1) (VTuple [2; 2]) (VInt 4) true); reflexivity.
Defined.

Lemma Chain_line_witness :
  enumerate 100 (Chain_init 4 (Qs_ofZ 7))
  = Ok (map (fun i =>
          mkLocationInfo [kmul (Qs_ofZ 7) (kofZ i); kmul (Qs_ofZ 7) (kofZ 0)] true)
          (seqZ 0 4)).
Proof.
  apply (Chain_line Qs_mul_1_l Qs_mul_0_l Qs_add_0_r 100 4 (Qs_ofZ 7)).
  split; [repeat (constructor; [lia|]); constructor | simpl; lia].
Defined.
